(** * firewrapper: the buffered edit path of [store.js] and its siblings

    A shallow embedding of the write path of the firewrapper package
    ([src/store.js], its older copy in the same file, and
    [src/asyncstore.js]) together with the properties of its debounce
    logic.

    The JavaScript heap is not modelled: what the functions do is
    recorded as explicit state ([world]) made of the browser's
    [localStorage], the table of armed [setTimeout] handlers, the promises
    returned by [setDoc] that have not settled yet, and a log of the calls
    made to the Firestore SDK and to the caller's callbacks. *)

From stdpp Require Import base option list gmap strings pretty.
From Stdlib Require Import ZArith Lia Ascii.

Open Scope string_scope.
Open Scope Z_scope.

Set Warnings "-register-all".

(** ** JavaScript values *)

(** The values that flow through the write path.  [VDate t] is a [Date]
    object for the instant [t]; [VIso t] is the string that
    [JSON.stringify] renders that date as, kept as the instant it stands
    for (its characters are not spelled out).  Objects keep their own
    properties in insertion order, each name once. *)
Inductive value : Type :=
  | VUndefined
  | VNull
  | VBool (b : bool)
  | VNum (n : Z)
  | VStr (s : string)
  | VIso (t : Z)
  | VDate (t : Z)
  | VArr (xs : list value)
  | VObj (fields : list (string * value)).

Abbreviation obj := (list (string * value)).

(** [!v] is [negb (truthy v)]. *)
Definition truthy (v : value) : bool :=
  match v with
  | VUndefined | VNull => false
  | VBool b => b
  | VNum n => negb (n =? 0)
  | VStr s => negb (String.eqb s "")
  | VIso _ | VDate _ | VArr _ | VObj _ => true
  end.

Definition nullish (v : value) : bool :=
  match v with
  | VUndefined | VNull => true
  | _ => false
  end.

Fixpoint get_field (k : string) (o : obj) : value :=
  match o with
  | [] => VUndefined
  | (k', v) :: r => if String.eqb k k' then v else get_field k r
  end.

(** [o[k] = v] on an object: an existing property keeps its place, a new
    one goes last. *)
Fixpoint set_field (k : string) (v : value) (o : obj) : obj :=
  match o with
  | [] => [(k, v)]
  | (k', v') :: r =>
      if String.eqb k k' then (k, v) :: r else (k', v') :: set_field k v r
  end.

(** [{ ...a, ...b }] is [spread (spread [] a) b]: the properties of [b]
    are assigned one by one onto a copy of [a].  (JavaScript lists
    property names that are array indices before the others; documents
    are taken not to mix the two kinds.) *)
Definition spread (a b : obj) : obj :=
  fold_left (fun acc kv => set_field kv.1 kv.2 acc) b a.

Fixpoint chars (s : string) : list value :=
  match s with
  | EmptyString => []
  | String c r => VStr (String c EmptyString) :: chars r
  end.

(** The own enumerable properties that [...v] copies. *)
Definition own_props (v : value) : obj :=
  match v with
  | VObj o => o
  | VArr xs => imap (fun i x => (pretty i, x)) xs
  | VStr s => imap (fun i x => (pretty i, x)) (chars s)
  | _ => []
  end.

(** [v.k] for a property name [k] that is not an array index, on a [v]
    that is neither [null] nor [undefined]. *)
Definition prop (v : value) (k : string) : value :=
  match v with
  | VObj o => get_field k o
  | VArr xs => if String.eqb k "length" then VNum (Z.of_nat (length xs)) else VUndefined
  | VStr s => if String.eqb k "length" then VNum (Z.of_nat (String.length s)) else VUndefined
  | _ => VUndefined
  end.

Inductive js_error : Type :=
  | TypeError
  | ReferenceError.

Inductive outcome (A : Type) : Type :=
  | Returns (a : A)
  | Throws (e : js_error).
Arguments Returns {A} a.
Arguments Throws {A} e.

(** [v.k] in general: reading a property of [null] or [undefined] throws. *)
Definition member (v : value) (k : string) : outcome value :=
  if nullish v then Throws TypeError else Returns (prop v k).

(** [ToNumber] on the primitive values; [None] is [NaN].  Strings, dates
    and objects never reach a comparison in this code and are sent to
    [NaN]. *)
Definition to_number (v : value) : option Z :=
  match v with
  | VNull => Some 0
  | VBool b => Some (if b then 1 else 0)
  | VNum n => Some n
  | _ => None
  end.

(** [v > n] for a number literal [n]. *)
Definition js_gt (v : value) (n : Z) : bool :=
  match to_number v with
  | Some m => n <? m
  | None => false
  end.

(** [a === b].  Objects and arrays read back from [JSON.parse] are fresh,
    so they are equal to nothing else; two [VIso] strings are compared by
    their instants. *)
Definition strict_eq (a b : value) : bool :=
  match a, b with
  | VUndefined, VUndefined | VNull, VNull => true
  | VBool x, VBool y => Bool.eqb x y
  | VNum x, VNum y => x =? y
  | VStr x, VStr y => String.eqb x y
  | VIso x, VIso y => x =? y
  | _, _ => false
  end.

(** [JSON.parse(JSON.stringify(v))]: dates come back as strings,
    [undefined] properties are dropped and [undefined] array slots become
    [null]. *)
Fixpoint json (v : value) : value :=
  match v with
  | VDate t => VIso t
  | VArr xs =>
      VArr (map (fun x => match x with VUndefined => VNull | _ => json x end) xs)
  | VObj o =>
      VObj ((fix fields (o : obj) : obj :=
               match o with
               | [] => []
               | (k, VUndefined) :: r => fields r
               | (k, x) :: r => (k, json x) :: fields r
               end) o)
  | _ => v
  end.

(** ** The world around the module *)

Inductive status : Type := SUCCESS | ERROR.

(** A callback argument: a function of the caller, or the default
    [() => {}]. *)
Inductive fn : Type :=
  | Fn (name : nat)
  | Noop.

(** The second argument of a callback call.  [InvalidParameters] is the
    object whose [message] starts with "Invalid parameters." *)
Inductive payload : Type :=
  | InvalidParameters
  | Document (d : obj)
  | DocRef (collection id : string)
  | BackendFailure (error : string).

(** What the module does to the outside: SDK calls and callback calls, in
    the order they happen.  [SetDoc c i d m] is
    [setDoc(doc(db, c, i), d, { merge: m })], with [m = None] when no
    options are passed. *)
Inductive effect : Type :=
  | Callback (f : fn) (st : status) (p : payload)
  | GetDoc (collection id : option string)
  | SetDoc (collection id : string) (d : obj) (merge : option bool).

(** A promise returned by [setDoc] that has not settled, with what the
    handlers attached by [.then] and [.catch] do when it does. *)
Record promise : Type := {
  on_then : list effect;
  on_catch : string -> list effect
}.

(** The closure [saveToBackend] of one [SetItem] call: the variables it
    captured. *)
Record saveToBackend_closure : Type := {
  sb_collectionId : string;
  sb_itemId : string;
  sb_document : obj;
  sb_overwrite : bool;
  sb_callback : fn
}.

(** An armed [setTimeout(handler, delay)]. *)
Record timer : Type := {
  handler : saveToBackend_closure;
  delay : Z
}.

Record world : Type := {
  localStorage : gmap string value;
  timers : gmap Z timer;
  next_timer : Z;
  in_flight : list promise;
  log : list effect
}.

Definition initial : world :=
  {| localStorage := ∅; timers := ∅; next_timer := 1; in_flight := []; log := [] |}.

(** [localStorage.getItem] followed by [JSON.parse]; a missing key reads
    as [null], and [JSON.parse(null)] is [null]. *)
Definition getItem (ls : gmap string value) (k : string) : value :=
  default VNull (ls !! k).

(** [localStorage.setItem(k, JSON.stringify(v))]. *)
Definition setItem (k : string) (v : value) (w : world) : world :=
  {| localStorage := <[k := json v]> (localStorage w);
     timers := timers w; next_timer := next_timer w;
     in_flight := in_flight w; log := log w |}.

Definition emit (e : effect) (w : world) : world :=
  {| localStorage := localStorage w; timers := timers w;
     next_timer := next_timer w; in_flight := in_flight w;
     log := (log w ++ [e])%list |}.

Definition await (p : promise) (w : world) : world :=
  {| localStorage := localStorage w; timers := timers w;
     next_timer := next_timer w; in_flight := (in_flight w ++ [p])%list;
     log := log w |}.

(** [setTimeout(f, ms)]: the handle is the next unused positive number. *)
Definition setTimeout (f : saveToBackend_closure) (ms : Z) (w : world) : Z * world :=
  (next_timer w,
   {| localStorage := localStorage w;
      timers := <[next_timer w := {| handler := f; delay := ms |}]> (timers w);
      next_timer := next_timer w + 1;
      in_flight := in_flight w; log := log w |}).

(** [clearTimeout(v)]: anything that is not an armed handle is ignored. *)
Definition clearTimeout (v : value) (w : world) : world :=
  match v with
  | VNum h =>
      {| localStorage := localStorage w; timers := delete h (timers w);
         next_timer := next_timer w; in_flight := in_flight w; log := log w |}
  | _ => w
  end.

(** A string argument is present when it is neither missing nor empty. *)
Definition present (s : option string) : bool :=
  match s with
  | Some s => negb (String.eqb s "")
  | None => false
  end.

(** [!localStorage.getItem(k)]: the stored text is JSON, never the empty
    string, so the test sees whether the key is there. *)
Definition noItem (ls : gmap string value) (k : string) : bool :=
  bool_decide (ls !! k = None).

(** A timer fires: the runtime disarms it and runs its handler. *)
Definition disarm (h : Z) (w : world) : world :=
  {| localStorage := localStorage w; timers := delete h (timers w);
     next_timer := next_timer w; in_flight := in_flight w; log := log w |}.

Inductive settlement : Type :=
  | Fulfilled
  | Rejected (error : string).

(** The [n]-th promise in flight settles and its handlers run. *)
Definition settle (n : nat) (r : settlement) (w : world) : world :=
  match in_flight w !! n with
  | Some p =>
      {| localStorage := localStorage w; timers := timers w;
         next_timer := next_timer w; in_flight := delete n (in_flight w);
         log := (log w ++ match r with
                          | Fulfilled => on_then p
                          | Rejected error => on_catch p error
                          end)%list |}
  | None => w
  end.

(** Calling the [callback] parameter; calling a missing one throws. *)
Definition call (callback : option fn) (st : status) (p : payload) (w : world)
    : world * option js_error :=
  match callback with
  | Some f => (emit (Callback f st p) w, None)
  | None => (w, Some TypeError)
  end.

(** The [beforeunload] event handed to the shutdown handler. *)
Record event : Type := {
  defaultPrevented : bool;
  returnValue : string
}.

(** What the operations that only pass a request on to the SDK do, as a
    trace.  [Report f st a] is a call of the callback [f]; [answer] is
    its second argument. *)
Inductive answer : Type :=
  | Nothing
  | Told (p : payload)
  | Items (documents : list obj).

Inductive passthrough : Type :=
  | Report (f : fn) (st : status) (a : answer)
  | DeleteDoc (collection id : string)
  | GetDocs (collection : string).

(** How [getDocs] settles: with the documents of the collection, in the
    order of the snapshot, or with an error. *)
Inductive listing : Type :=
  | Listed (documents : list obj)
  | ListingFailed (error : string).

(** ** [src/store.js] *)

Module Store.

Definition timerIDsKey : string := "TIMER_IDS".
Definition documentKey (collectionId itemId : string) : string :=
  collectionId +:+ "." +:+ itemId.
Definition timerKey (collectionId itemId : string) : string :=
  documentKey collectionId itemId +:+ "-TIMER".
Definition mergeKey (collectionId itemId : string) : string :=
  documentKey collectionId itemId +:+ "-MERGE".

(** The metadata block of [SetItem]. *)
Definition edit_METADATA (currentdate : Z) (itemId : string) (data : obj)
    (overwrite : bool) : obj :=
  let _METADATA :=
    [("_DATE_LAST_MODIFIED", VDate currentdate); ("_DOCUMENT_ID", VStr itemId)] in
  if overwrite
     || negb (truthy (get_field "_METADATA" data))
     || negb (truthy (prop (get_field "_METADATA" data) "_DATE_CREATED"))
  then set_field "_DATE_CREATED" (VDate currentdate) _METADATA
  else _METADATA.

(** [{ ...data, _METADATA }]. *)
Definition edit_document (currentdate : Z) (itemId : string) (data : obj)
    (overwrite : bool) : obj :=
  set_field "_METADATA" (VObj (edit_METADATA currentdate itemId data overwrite))
    (spread [] data).

(** The body of [saveToBackend]: the [setDoc] call and the handlers
    chained on its promise. *)
Definition saveToBackend (f : saveToBackend_closure) (w : world) : world :=
  await {| on_then := [Callback (sb_callback f) SUCCESS (Document (sb_document f))];
           on_catch := fun error => [Callback (sb_callback f) ERROR (BackendFailure error)] |}
    (emit (SetDoc (sb_collectionId f) (sb_itemId f) (sb_document f)
             (Some (negb (sb_overwrite f)))) w).

(** The timer [h] fires: [saveToBackend] of the call that armed it runs. *)
Definition fire (h : Z) (w : world) : world :=
  match timers w !! h with
  | Some t => saveToBackend (handler t) (disarm h w)
  | None => w
  end.

(** [GetItem] up to its [getDoc] call; what the snapshot handler does
    later is not part of the model. *)
Definition GetItem (collectionId itemId : option string) (callback : option fn)
    (w : world) : world * option js_error :=
  if negb (present collectionId) || negb (present itemId) || negb (bool_decide (is_Some callback))
  then call callback ERROR InvalidParameters w
  else (emit (GetDoc collectionId itemId) w, None).

(** [new_id] is the identity that [doc(collection(db, collectionId))]
    generates. *)
Definition AddItem (currentdate : Z) (new_id : string)
    (collectionId : option string) (data : option obj) (callback : option fn)
    (w : world) : world * option js_error :=
  match collectionId, data, callback with
  | Some collectionId, Some data, Some callback_ =>
    if String.eqb collectionId "" then call callback ERROR InvalidParameters w
    else
      let _METADATA :=
        [("_DATE_LAST_MODIFIED", VDate currentdate);
         ("_DATE_CREATED", VDate currentdate);
         ("_DOCUMENT_ID", VStr new_id)] in
      let document := set_field "_METADATA" (VObj _METADATA) (spread [] data) in
      (await {| on_then := [Callback callback_ SUCCESS (DocRef collectionId new_id)];
                on_catch := fun error => [Callback callback_ ERROR (BackendFailure error)] |}
         (emit (SetDoc collectionId new_id document None) w), None)
  | _, _, _ => call callback ERROR InvalidParameters w
  end.

Definition SetItem (currentdate : Z) (collectionId itemId : option string)
    (data : option obj) (overwrite : bool) (callback : option fn)
    (useDelay : bool) (w : world) : world * option js_error :=
  let callback := default Noop callback in
  match collectionId, itemId, data with
  | Some collectionId, Some itemId, Some data =>
    if String.eqb collectionId "" || String.eqb itemId "" then
      (emit (Callback callback ERROR InvalidParameters) w, None)
    else
      let document := edit_document currentdate itemId data overwrite in
      let saveToBackend_ :=
        {| sb_collectionId := collectionId; sb_itemId := itemId;
           sb_document := document; sb_overwrite := overwrite;
           sb_callback := callback |} in
      if negb useDelay then (saveToBackend saveToBackend_ w, None)
      else
        let documentKey := documentKey collectionId itemId in
        let timerKey := timerKey collectionId itemId in
        let mergeKey := mergeKey collectionId itemId in
        let cacheIsEmpty := noItem (localStorage w) documentKey in
        let timerIds := getItem (localStorage w) timerIDsKey in
        let timerIds := if negb (truthy timerIds) then VArr [] else timerIds in
        if cacheIsEmpty then
          let w := setItem documentKey (VObj document) w in
          let '(timerID, w) := setTimeout saveToBackend_ 5000 w in
          let w := setItem timerKey (VNum timerID) w in
          let merge := negb overwrite in
          let w := setItem mergeKey (VBool merge) w in
          (setItem timerIDsKey timerIds w, None)
        else
          let cacheData := getItem (localStorage w) documentKey in
          let cacheTimerId := getItem (localStorage w) timerKey in
          let w :=
            if overwrite then setItem documentKey (VObj document) w
            else
              let mergedData := spread (spread [] (own_props cacheData)) document in
              setItem documentKey (VObj mergedData) w in
          let w := clearTimeout cacheTimerId w in
          match timerIds with
          | VArr ids =>
              let timerIds := filter (fun id => strict_eq id cacheTimerId = false) ids in
              let '(timerID, w) := setTimeout saveToBackend_ 3000 w in
              let w := setItem timerKey (VNum timerID) w in
              let timerIds := (timerIds ++ [VNum timerID])%list in
              let merge := negb overwrite in
              let w := setItem mergeKey (VBool merge) w in
              (setItem timerIDsKey (VArr timerIds) w, None)
          | _ => (w, Some TypeError)
          end
  | _, _, _ => (emit (Callback callback ERROR InvalidParameters) w, None)
  end.

Definition clearCacheBeforeUnload (ls : gmap string value) (e : event)
    : outcome event :=
  let timerIds := getItem ls timerIDsKey in
  match member timerIds "lenth" with
  | Returns lenth =>
      if js_gt lenth 0 then
        Returns {| defaultPrevented := true;
                   returnValue := "We're still saving your data...please wait a couple seconds!" |}
      else Returns e
  | Throws err => Throws err
  end.

(** [RemoveItem], with [r] the way the promise of [deleteDoc] settles. *)
Definition RemoveItem (collectionId itemId : option string) (callback : option fn)
    (r : settlement) : list passthrough :=
  let callback := default Noop callback in
  match collectionId, itemId with
  | Some collectionId, Some itemId =>
    if String.eqb collectionId "" || String.eqb itemId "" then
      [Report callback ERROR (Told InvalidParameters)]
    else
      DeleteDoc collectionId itemId ::
      match r with
      | Fulfilled => [Report callback SUCCESS Nothing]
      | Rejected error => [Report callback ERROR (Told (BackendFailure error))]
      end
  | _, _ => [Report callback ERROR (Told InvalidParameters)]
  end.

(** [GetCollection] reads a variable [db] that the function does not
    declare and the file does not define: [db_defined] says whether the
    name resolves at run time.  [r] is the way [getDocs] settles. *)
Definition GetCollection (db_defined : bool) (collectionId : option string)
    (callback : option fn) (r : listing) : list passthrough * option js_error :=
  match collectionId, callback with
  | Some collectionId, Some callback =>
    if String.eqb collectionId "" then
      ([Report callback ERROR (Told InvalidParameters)], None)
    else if db_defined then
      (GetDocs collectionId ::
       match r with
       | Listed documents => [Report callback SUCCESS (Items documents)]
       | ListingFailed error => [Report callback ERROR (Told (BackendFailure error))]
       end, None)
    else ([], Some ReferenceError)
  | _, Some callback => ([Report callback ERROR (Told InvalidParameters)], None)
  | _, None => ([], Some TypeError)
  end.

End Store.

(** ** The older copy kept in [src/store.js] *)

Module StoreLegacy.

(** This copy calls [getDatabase], a name it neither imports nor
    defines: [getDatabase_defined] says whether the name resolves at run
    time.  There is no [return] after the parameter check. *)
Definition GetItem (getDatabase_defined : bool)
    (collectionId itemId : option string) (callback : option fn)
    (w : world) : world * option js_error :=
  let checked :=
    if negb (present collectionId) || negb (present itemId) || negb (bool_decide (is_Some callback))
    then call callback ERROR InvalidParameters w
    else (w, None) in
  match checked with
  | (w, Some err) => (w, Some err)
  | (w, None) =>
      if getDatabase_defined then (emit (GetDoc collectionId itemId) w, None)
      else (w, Some ReferenceError)
  end.

End StoreLegacy.

(** ** [src/asyncstore.js] *)

Module AsyncStore.

Definition edit_METADATA (currentdate : Z) (itemId : string) (data : obj)
    (overwrite : bool) : obj :=
  let _METADATA :=
    [("_DATE_LAST_MODIFIED", VDate currentdate); ("_DOCUMENT_ID", VStr itemId)] in
  if overwrite
     || negb (truthy (get_field "_METADATA" data))
     || negb (truthy (prop (get_field "_METADATA" data) "_DATE_CREATED"))
  then set_field "_DATE_CREATED" (VDate currentdate) _METADATA
  else _METADATA.

(** [SetItem] returns the promise of [setDoc] to its caller and chains
    nothing on it; [useDelay] is accepted and not read. *)
Definition SetItem (currentdate : Z) (collectionId itemId : option string)
    (data : option obj) (overwrite : bool) (callback : option fn)
    (useDelay : bool) (w : world) : world * option js_error :=
  let callback := default Noop callback in
  match collectionId, itemId, data with
  | Some collectionId, Some itemId, Some data =>
    if String.eqb collectionId "" || String.eqb itemId "" then
      (emit (Callback callback ERROR InvalidParameters) w, None)
    else
      let _METADATA := edit_METADATA currentdate itemId data overwrite in
      let document := set_field "_METADATA" (VObj _METADATA) (spread [] data) in
      (await {| on_then := []; on_catch := fun _ => [] |}
         (emit (SetDoc collectionId itemId document (Some (negb overwrite))) w),
       None)
  | _, _, _ => (emit (Callback callback ERROR InvalidParameters) w, None)
  end.

Definition AddItem (currentdate : Z) (new_id : string)
    (collectionId : option string) (data : option obj) (callback : option fn)
    (w : world) : world * option js_error :=
  match collectionId, data, callback with
  | Some collectionId, Some data, Some callback_ =>
    if String.eqb collectionId "" then call callback ERROR InvalidParameters w
    else
      let _METADATA :=
        [("_DATE_LAST_MODIFIED", VDate currentdate);
         ("_DATE_CREATED", VDate currentdate);
         ("_DOCUMENT_ID", VStr new_id)] in
      let document := set_field "_METADATA" (VObj _METADATA) (spread [] data) in
      (await {| on_then := [Callback callback_ SUCCESS (DocRef collectionId new_id)];
                on_catch := fun error => [Callback callback_ ERROR (BackendFailure error)] |}
         (emit (SetDoc collectionId new_id document None) w), None)
  | _, _, _ => call callback ERROR InvalidParameters w
  end.

Definition clearCacheBeforeUnload (ls : gmap string value) (e : event)
    : outcome event :=
  let timerIds := getItem ls "TIMER_IDS" in
  match member timerIds "lenth" with
  | Returns lenth =>
      if js_gt lenth 0 then
        Returns {| defaultPrevented := true;
                   returnValue := "We're still saving your data...please wait a couple seconds!" |}
      else Returns e
  | Throws err => Throws err
  end.

End AsyncStore.

(** ** Bursts of buffered writes, and the states the module reaches *)

(** One buffered edit: the arguments of a [SetItem] call with
    [useDelay = true]. *)
Record edit : Type := {
  edit_time : Z;
  edit_data : obj;
  edit_overwrite : bool;
  edit_callback : option fn
}.

Definition buffered (c i : string) (x : edit) (w : world) : world :=
  (Store.SetItem (edit_time x) (Some c) (Some i) (Some (edit_data x))
     (edit_overwrite x) (edit_callback x) true w).1.

(** A burst: buffered edits of one document, one after the other, with no
    timer firing in between. *)
Definition burst (c i : string) (xs : list edit) (w : world) : world :=
  foldl (fun w x => buffered c i x w) w xs.

(** The [saveToBackend] closure that the edit [x] creates. *)
Definition closure_of (c i : string) (x : edit) : saveToBackend_closure :=
  {| sb_collectionId := c; sb_itemId := i;
     sb_document := Store.edit_document (edit_time x) i (edit_data x) (edit_overwrite x);
     sb_overwrite := edit_overwrite x;
     sb_callback := default Noop (edit_callback x) |}.

(** [TIMER_IDS] is missing, falsy or an array: [SetItem] can read it. *)
Definition registry_readable (ls : gmap string value) : bool :=
  match getItem ls Store.timerIDsKey with
  | VArr _ => true
  | v => negb (truthy v)
  end.

(** No timer is armed, or one is and the key's timer entry names it. *)
Definition one_timer (c i : string) (w : world) : Prop :=
  timers w = ∅ ∨
  ∃ h t, timers w = {[h := t]} ∧
         localStorage w !! Store.timerKey c i = Some (VNum h) ∧
         is_Some (localStorage w !! Store.documentKey c i).

(** The worlds that calls of [store.js] and the runtime (timers firing,
    promises settling) lead to, from an empty local store. *)
Inductive reachable : world → Prop :=
  | reach_initial : reachable initial
  | reach_SetItem now c i data overwrite cb useDelay w :
      reachable w → reachable (Store.SetItem now c i data overwrite cb useDelay w).1
  | reach_AddItem now new_id c data cb w :
      reachable w → reachable (Store.AddItem now new_id c data cb w).1
  | reach_GetItem c i cb w :
      reachable w → reachable (Store.GetItem c i cb w).1
  | reach_fire h w : reachable w → reachable (Store.fire h w)
  | reach_settle n r w : reachable w → reachable (settle n r w).

(** [TIMER_IDS] is missing or holds an array. *)
Definition registry_array (ls : gmap string value) : Prop :=
  ls !! Store.timerIDsKey = None ∨ ∃ ids, ls !! Store.timerIDsKey = Some (VArr ids).

(** Every number in the local store and every armed handle was returned
    by an earlier [setTimeout]. *)
Definition handles_issued (w : world) : Prop :=
  (∀ k h, localStorage w !! k = Some (VNum h) → h < next_timer w) ∧
  (∀ h, is_Some (timers w !! h) → h < next_timer w).

Definition well_formed (w : world) : Prop :=
  registry_array (localStorage w) ∧ handles_issued w.

(** The keys that [SetItem] derives from a document contain a dot;
    [TIMER_IDS] does not. *)
Fixpoint has_dot (s : string) : bool :=
  match s with
  | EmptyString => false
  | String a r => Ascii.eqb a "."%char || has_dot r
  end.

(** Data used in the examples: a note as read back from the backend, and
    two edits of it. *)
Definition stored_note : obj :=
  [("title", VStr "t"); ("_METADATA", VObj [("_DATE_CREATED", VIso 5)])].
Definition edit_a : obj := [("a", VNum 1)].
Definition edit_b : obj := [("b", VNum 2)].
Definition first_edit : edit :=
  {| edit_time := 10; edit_data := edit_a; edit_overwrite := false;
     edit_callback := Some (Fn 0) |}.
Definition second_edit : edit :=
  {| edit_time := 20; edit_data := edit_b; edit_overwrite := false;
     edit_callback := Some (Fn 0) |}.
Definition overwriting_edit : edit :=
  {| edit_time := 10; edit_data := edit_a; edit_overwrite := true;
     edit_callback := Some (Fn 0) |}.

(** ** Runs from any state, and what the rest of the module needs *)

(** The fields of an object as they come back from [JSON.stringify] and
    [JSON.parse]. *)
Fixpoint json_fields (o : obj) : obj :=
  match o with
  | [] => []
  | (k, VUndefined) :: r => json_fields r
  | (k, x) :: r => (k, json x) :: json_fields r
  end.

(** [k in o]. *)
Definition has_key (k : string) (o : obj) : bool :=
  existsb (fun kv => String.eqb k kv.1) o.

(** The worlds that calls of [store.js] and the runtime lead to from the
    world [w0]. *)
Inductive reaches (w0 : world) : world → Prop :=
  | reaches_here : reaches w0 w0
  | reaches_SetItem now c i data overwrite cb useDelay w :
      reaches w0 w → reaches w0 (Store.SetItem now c i data overwrite cb useDelay w).1
  | reaches_AddItem now new_id c data cb w :
      reaches w0 w → reaches w0 (Store.AddItem now new_id c data cb w).1
  | reaches_GetItem c i cb w :
      reaches w0 w → reaches w0 (Store.GetItem c i cb w).1
  | reaches_fire h w : reaches w0 w → reaches w0 (Store.fire h w)
  | reaches_settle n r w : reaches w0 w → reaches w0 (settle n r w).

(** An immediate [SetItem]: [useDelay = false]. *)
Definition immediate (c i : string) (x : edit) (w : world) : world :=
  (Store.SetItem (edit_time x) (Some c) (Some i) (Some (edit_data x))
     (edit_overwrite x) (edit_callback x) false w).1.

(** The callback calls in a trace. *)
Definition is_report (e : passthrough) : bool :=
  match e with
  | Report _ _ _ => true
  | _ => false
  end.

Definition reports (t : list passthrough) : list passthrough :=
  List.filter is_report t.




(** Two documents of one collection, each written twice with
    [useDelay]. *)
Definition two_documents : world :=
  burst "notes" "n2" [first_edit; second_edit]
    (burst "notes" "n1" [first_edit; second_edit] initial).


(** * Properties *)

(** ** Objects *)

Lemma get_field_set_field (k : string) (v : value) (o : obj) :
  get_field k (set_field k v o) = v.
Proof.
  induction o as [|[k' v'] o IH]; simpl.
  - by rewrite String.eqb_refl.
  - destruct (String.eqb k k') eqn:E; simpl; rewrite ?String.eqb_refl, ?E; done.
Qed.

Lemma get_field_set_field_ne (k k' : string) (v : value) (o : obj) :
  k ≠ k' → get_field k (set_field k' v o) = get_field k o.
Proof.
  intros Hne. induction o as [|[k0 v0] o IH]; simpl.
  - by apply String.eqb_neq in Hne as ->.
  - destruct (String.eqb k' k0) eqn:E; simpl.
    + apply String.eqb_eq in E as <-. by apply String.eqb_neq in Hne as ->.
    + by rewrite IH.
Qed.

(** A falsy value has no truthy property. *)
Lemma truthy_prop_base (v : value) (k : string) :
  truthy (prop v k) = true → truthy v = true.
Proof.
  destruct v as [| |b|n|s| | | |]; simpl; try done.
  destruct (String.eqb k "length"); [|done].
  destruct s; simpl; done.
Qed.

(** ** The metadata stamp of an edit *)

Lemma edit_METADATA_keeps_out_DATE_CREATED (now : Z) (itemId : string) (data : obj) :
  truthy (prop (get_field "_METADATA" data) "_DATE_CREATED") = true →
  Store.edit_METADATA now itemId data false
  = [("_DATE_LAST_MODIFIED", VDate now); ("_DOCUMENT_ID", VStr itemId)].
Proof.
  intros Hc. unfold Store.edit_METADATA.
  by rewrite (truthy_prop_base _ _ Hc), Hc.
Qed.

Lemma edit_METADATA_fresh (now : Z) (itemId : string) (data : obj) (overwrite : bool) :
  overwrite = true ∨ truthy (prop (get_field "_METADATA" data) "_DATE_CREATED") = false →
  Store.edit_METADATA now itemId data overwrite
  = [("_DATE_LAST_MODIFIED", VDate now); ("_DOCUMENT_ID", VStr itemId);
     ("_DATE_CREATED", VDate now)].
Proof.
  intros [-> | Hc]; unfold Store.edit_METADATA; [done|].
  rewrite Hc. simpl. by rewrite !orb_true_r.
Qed.

(** C6 as stated fails: an edit with [overwrite = false] of data whose
    metadata carries [_DATE_CREATED = 5] hands [setDoc] a document whose
    metadata has no [_DATE_CREATED] at all, so the prior value is not in
    the stamped document. *)
Lemma C6_stamped_document_drops_DATE_CREATED :
  prop (get_field "_METADATA" stored_note) "_DATE_CREATED" = VIso 5 ∧
  ∃ d, log (Store.SetItem 9 (Some "notes") (Some "n1") (Some stored_note)
              false None false initial).1
       = [SetDoc "notes" "n1" d (Some true)] ∧
       prop (get_field "_METADATA" d) "_DATE_CREATED" = VUndefined ∧
       prop (get_field "_METADATA" d) "_DATE_CREATED" ≠ VIso 5.
Proof. split; [done|]. eexists. split; [reflexivity|]. by split. Qed.

(** C6, amended: for an edit with [overwrite = false] of data whose
    [_METADATA._DATE_CREATED] is set, the metadata of the document handed
    to [setDoc] holds [_DATE_LAST_MODIFIED] and [_DOCUMENT_ID] only: no
    [_DATE_CREATED] is written, neither the old one nor a fresh one, and
    the write is a merging one. *)
Theorem C6_edit_writes_no_DATE_CREATED
    (now : Z) (c i : string) (data : obj) (cb : option fn) (w : world) :
  c ≠ "" → i ≠ "" →
  truthy (prop (get_field "_METADATA" data) "_DATE_CREATED") = true →
  let d := Store.edit_document now i data false in
  get_field "_METADATA" d
    = VObj [("_DATE_LAST_MODIFIED", VDate now); ("_DOCUMENT_ID", VStr i)] ∧
  prop (get_field "_METADATA" d) "_DATE_CREATED" = VUndefined ∧
  log (Store.SetItem now (Some c) (Some i) (Some data) false cb false w).1
    = (log w ++ [SetDoc c i d (Some true)])%list.
Proof.
  intros Hc Hi Hdc d. subst d. unfold Store.edit_document.
  rewrite get_field_set_field, edit_METADATA_keeps_out_DATE_CREATED by done.
  split; [done|]. split; [done|].
  unfold Store.SetItem.
  apply String.eqb_neq in Hc as ->. apply String.eqb_neq in Hi as ->. simpl.
  unfold Store.edit_document.
  by rewrite edit_METADATA_keeps_out_DATE_CREATED.
Qed.

Lemma C6_edit_writes_no_DATE_CREATED_witness :
  get_field "_METADATA" (Store.edit_document 9 "n1" stored_note false)
    = VObj [("_DATE_LAST_MODIFIED", VDate 9); ("_DOCUMENT_ID", VStr "n1")] ∧
  prop (get_field "_METADATA" (Store.edit_document 9 "n1" stored_note false))
       "_DATE_CREATED" = VUndefined ∧
  log (Store.SetItem 9 (Some "notes") (Some "n1") (Some stored_note)
         false None false initial).1
    = ([] ++ [SetDoc "notes" "n1" (Store.edit_document 9 "n1" stored_note false)
                (Some true)])%list.
Proof.
  apply (C6_edit_writes_no_DATE_CREATED 9 "notes" "n1" stored_note None initial);
    [discriminate | discriminate | reflexivity].
Defined.

(** ** The create path *)

(** C7: a valid [AddItem] call stores exactly one document, under the
    generated identity, and the metadata of that document has
    [_DATE_CREATED] equal to [_DATE_LAST_MODIFIED] and [_DOCUMENT_ID] equal
    to the generated identity. *)
Theorem C7_AddItem_metadata
    (now : Z) (new_id c : string) (data : obj) (cb : fn) (w : world) :
  c ≠ "" →
  ∃ d, log (Store.AddItem now new_id (Some c) (Some data) (Some cb) w).1
         = (log w ++ [SetDoc c new_id d None])%list ∧
       (Store.AddItem now new_id (Some c) (Some data) (Some cb) w).2 = None ∧
       prop (get_field "_METADATA" d) "_DATE_CREATED"
         = prop (get_field "_METADATA" d) "_DATE_LAST_MODIFIED" ∧
       prop (get_field "_METADATA" d) "_DATE_CREATED" = VDate now ∧
       prop (get_field "_METADATA" d) "_DOCUMENT_ID" = VStr new_id.
Proof.
  intros Hc. unfold Store.AddItem.
  apply String.eqb_neq in Hc as ->. simpl.
  eexists. split; [reflexivity|]. split; [done|].
  by rewrite get_field_set_field.
Qed.

Lemma C7_AddItem_metadata_witness :
  ∃ d, log (Store.AddItem 7 "g1" (Some "notes") (Some [("title", VStr "t")])
              (Some (Fn 0)) initial).1
         = ([] ++ [SetDoc "notes" "g1" d None])%list ∧
       (Store.AddItem 7 "g1" (Some "notes") (Some [("title", VStr "t")])
              (Some (Fn 0)) initial).2 = None ∧
       prop (get_field "_METADATA" d) "_DATE_CREATED"
         = prop (get_field "_METADATA" d) "_DATE_LAST_MODIFIED" ∧
       prop (get_field "_METADATA" d) "_DATE_CREATED" = VDate 7 ∧
       prop (get_field "_METADATA" d) "_DOCUMENT_ID" = VStr "g1".
Proof.
  apply (C7_AddItem_metadata 7 "g1" "notes" [("title", VStr "t")] (Fn 0) initial).
  discriminate.
Defined.

(** ** Parameter checks *)

(** [GetItem] of [store.js] stops after reporting a missing identifier. *)
Lemma GetItem_fails_fast (itemId : option string) (f : fn) (w : world) :
  Store.GetItem None itemId (Some f) w
  = (emit (Callback f ERROR InvalidParameters) w, None).
Proof. done. Qed.

(** C8 on the code: the older [GetItem] kept in [store.js] has no [return]
    after its parameter check.  Called without a collection id it reports
    the invalid parameters and then goes on: to the backend when
    [getDatabase] resolves, into an uncaught [ReferenceError] when it does
    not.  Without a callback, reporting itself throws a [TypeError]. *)
Theorem C8_legacy_GetItem_goes_on (itemId : option string) (f : fn) (w : world) :
  StoreLegacy.GetItem true None itemId (Some f) w
  = (emit (GetDoc None itemId) (emit (Callback f ERROR InvalidParameters) w), None) ∧
  StoreLegacy.GetItem false None itemId (Some f) w
  = (emit (Callback f ERROR InvalidParameters) w, Some ReferenceError) ∧
  Store.GetItem None itemId None w = (w, Some TypeError).
Proof. done. Qed.

(** ** The two edit paths *)

(** C9 on the code: after the same successful immediate write, with the
    same [setDoc] sent by both, [store.js] has called the callback with
    [SUCCESS] and the document, and [SetItem] of [asyncstore.js], whose
    callback is documented as run once the backend has updated, has called
    nothing. *)
Lemma C9_asyncstore_reports_nothing :
  log (settle 0 Fulfilled
         (Store.SetItem 9 (Some "notes") (Some "n1") (Some edit_a) false
            (Some (Fn 0)) false initial).1)
  = [SetDoc "notes" "n1" (Store.edit_document 9 "n1" edit_a false) (Some true);
     Callback (Fn 0) SUCCESS (Document (Store.edit_document 9 "n1" edit_a false))] ∧
  log (settle 0 Fulfilled
         (AsyncStore.SetItem 9 (Some "notes") (Some "n1") (Some edit_a) false
            (Some (Fn 0)) false initial).1)
  = [SetDoc "notes" "n1" (Store.edit_document 9 "n1" edit_a false) (Some true)] ∧
  log (settle 0 Fulfilled
         (Store.SetItem 9 (Some "notes") (Some "n1") (Some edit_a) false
            (Some (Fn 0)) false initial).1)
  ≠ log (settle 0 Fulfilled
         (AsyncStore.SetItem 9 (Some "notes") (Some "n1") (Some edit_a) false
            (Some (Fn 0)) false initial).1).
Proof. split; [reflexivity|]. split; [reflexivity|]. discriminate. Qed.

Lemma settle_new_promise (n : nat) (w : world) (p : promise) (r : settlement) :
  n = length (in_flight w) →
  log (settle n r (await p w))
  = (log w ++ match r with Fulfilled => on_then p | Rejected e => on_catch p e end)%list.
Proof.
  intros ->. unfold settle, await. simpl.
  by rewrite lookup_app_r, Nat.sub_diag by lia.
Qed.

(** On the same arguments, with [useDelay = false] for [store.js], the
    two [SetItem] make the same calls and touch neither the local store
    nor the timers; when the write settles [store.js] calls the callback
    and [asyncstore.js] calls nothing. *)
Lemma SetItem_same_write_different_report
    (now : Z) (c i : option string) (data : option obj) (overwrite : bool)
    (cb : option fn) (useDelay : bool) (w : world) (r : settlement) :
  let s := Store.SetItem now c i data overwrite cb false w in
  let a := AsyncStore.SetItem now c i data overwrite cb useDelay w in
  log s.1 = log a.1 ∧ s.2 = a.2 ∧
  localStorage s.1 = localStorage w ∧ localStorage a.1 = localStorage w ∧
  timers s.1 = timers w ∧ timers a.1 = timers w ∧
  (present c = true → present i = true → ∀ d, data = Some d →
     log s.1 = (log w ++ [SetDoc (default "" c) (default "" i)
                            (Store.edit_document now (default "" i) d overwrite)
                            (Some (negb overwrite))])%list ∧
     log (settle (length (in_flight w)) r s.1)
       = (log s.1 ++ [match r with
                      | Fulfilled =>
                          Callback (default Noop cb) SUCCESS
                            (Document (Store.edit_document now (default "" i) d overwrite))
                      | Rejected e => Callback (default Noop cb) ERROR (BackendFailure e)
                      end])%list ∧
     log (settle (length (in_flight w)) r a.1) = log a.1).
Proof.
  unfold Store.SetItem, AsyncStore.SetItem.
  destruct c as [c|], i as [i|], data as [d|]; simpl; try done.
  destruct (String.eqb c "") eqn:Ec, (String.eqb i "") eqn:Ei; simpl; try done.
  repeat (split; [done|]).
  intros _ _ d' [= <-].
  split; [done|].
  unfold Store.saveToBackend. rewrite !settle_new_promise by done. simpl.
  split; [by destruct r|]. destruct r; apply app_nil_r.
Qed.

(** ** Keys of the local store *)

Lemma has_dot_app (s t : string) : has_dot (s +:+ t) = has_dot s || has_dot t.
Proof. induction s as [|a s IH]; simpl; [done|]. by rewrite IH, orb_assoc. Qed.

Lemma has_dot_documentKey (c i : string) : has_dot (Store.documentKey c i) = true.
Proof.
  unfold Store.documentKey. rewrite !has_dot_app. simpl. by rewrite orb_true_r.
Qed.

Lemma append_inj_l (s a b : string) : s +:+ a = s +:+ b → a = b.
Proof. induction s as [|x s IH]; simpl; [done|]. intros [= H]. auto. Qed.

Lemma timerKey_ne_mergeKey (c i : string) : Store.timerKey c i ≠ Store.mergeKey c i.
Proof. unfold Store.timerKey, Store.mergeKey. by intros H%append_inj_l. Qed.

Lemma timerKey_ne_timerIDsKey (c i : string) : Store.timerKey c i ≠ Store.timerIDsKey.
Proof.
  intros H. apply (f_equal has_dot) in H. unfold Store.timerKey in H.
  rewrite has_dot_app, has_dot_documentKey in H. done.
Qed.

Lemma mergeKey_ne_timerIDsKey (c i : string) : Store.mergeKey c i ≠ Store.timerIDsKey.
Proof.
  intros H. apply (f_equal has_dot) in H. unfold Store.mergeKey in H.
  rewrite has_dot_app, has_dot_documentKey in H. done.
Qed.

Lemma documentKey_ne_timerIDsKey (c i : string) : Store.documentKey c i ≠ Store.timerIDsKey.
Proof.
  intros H. apply (f_equal has_dot) in H. by rewrite has_dot_documentKey in H.
Qed.

Lemma insert_keeps (m : gmap string value) (k k' : string) (v : value) :
  is_Some (m !! k) → is_Some (<[k' := v]> m !! k).
Proof.
  intros H. destruct (decide (k' = k)) as [->|Hne].
  - rewrite lookup_insert_eq. eauto.
  - by rewrite lookup_insert_ne.
Qed.

(** ** Buffered writes to one key *)

#[local] Arguments json : simpl never.
#[local] Arguments spread : simpl never.
#[local] Arguments own_props : simpl never.
#[local] Arguments Store.edit_document : simpl never.

Lemma buffered_step (c i : string) (x : edit) (w : world) :
  c ≠ "" → i ≠ "" →
  registry_readable (localStorage w) = true →
  one_timer c i w →
  ∃ ms, timers (buffered c i x w)
        = {[next_timer w := {| handler := closure_of c i x; delay := ms |}]} ∧
  localStorage (buffered c i x w) !! Store.timerKey c i = Some (VNum (next_timer w)) ∧
  is_Some (localStorage (buffered c i x w) !! Store.documentKey c i) ∧
  (∃ ids, localStorage (buffered c i x w) !! Store.timerIDsKey = Some (VArr ids)) ∧
  next_timer (buffered c i x w) = next_timer w + 1 ∧
  log (buffered c i x w) = log w ∧
  in_flight (buffered c i x w) = in_flight w.
Proof.
  intros Hc Hi Hreg Hone. unfold buffered, Store.SetItem.
  apply String.eqb_neq in Hc as ->. apply String.eqb_neq in Hi as ->. simpl.
  assert (Store.mergeKey c i ≠ Store.timerKey c i) as Htm
    by (intros H; by apply (timerKey_ne_mergeKey c i)).
  assert (Store.timerIDsKey ≠ Store.timerKey c i) as Hti
    by (intros H; by apply (timerKey_ne_timerIDsKey c i)).
  assert (∃ ids, (if negb (truthy (getItem (localStorage w) Store.timerIDsKey))
                  then VArr [] else getItem (localStorage w) Store.timerIDsKey)
                 = VArr ids) as [ids ->].
  { unfold registry_readable in Hreg.
    destruct (getItem (localStorage w) Store.timerIDsKey);
      simpl in *; rewrite ?Hreg; eauto; done. }
  destruct (noItem (localStorage w) (Store.documentKey c i)) eqn:Hempty.
  - (* the first write of a cycle *)
    assert (timers w = ∅) as Hnone.
    { destruct Hone as [?|(h & t & _ & _ & [v Hv])]; [done|].
      unfold noItem in Hempty. apply bool_decide_eq_true in Hempty. congruence. }
    exists 5000. simpl. rewrite Hnone.
    split; [by rewrite insert_empty|].
    split; [by rewrite lookup_insert_ne, lookup_insert_ne, lookup_insert_eq|].
    split; [by do 3 apply insert_keeps; rewrite lookup_insert_eq|].
    split; [|done].
    rewrite lookup_insert_eq. eauto.
  - (* a write onto a cached document *)
    exists 3000.
    set (w1 := if edit_overwrite x then _ else _).
    assert (timers w1 = timers w ∧ next_timer w1 = next_timer w ∧
            log w1 = log w ∧ in_flight w1 = in_flight w ∧
            is_Some (localStorage w1 !! Store.documentKey c i))
      as (Ht1 & Hn1 & Hl1 & Hf1 & Hd1).
    { subst w1. destruct (edit_overwrite x); simpl; rewrite lookup_insert_eq; eauto. }
    set (w2 := clearTimeout _ w1).
    assert (timers w2 = ∅ ∧ next_timer w2 = next_timer w ∧
            log w2 = log w ∧ in_flight w2 = in_flight w ∧
            is_Some (localStorage w2 !! Store.documentKey c i))
      as (Ht2 & Hn2 & Hl2 & Hf2 & Hd2).
    { subst w2. destruct Hone as [Hnone|(h & t' & Hsing & Hkey & _)].
      + destruct (getItem (localStorage w) (Store.timerKey c i)); simpl;
          rewrite ?Ht1, ?Hnone, ?delete_empty; done.
      + unfold getItem. rewrite Hkey. simpl.
        rewrite Ht1, Hsing, delete_singleton_eq. done. }
    simpl. rewrite Ht2, Hn2, Hl2, Hf2.
    split; [by rewrite insert_empty|].
    split; [by rewrite lookup_insert_ne, lookup_insert_ne, lookup_insert_eq|].
    split; [by do 3 apply insert_keeps|].
    split; [|done].
    rewrite lookup_insert_eq. eauto.
Qed.

Lemma burst_inv (c i : string) (xs : list edit) (w : world) :
  c ≠ "" → i ≠ "" →
  registry_readable (localStorage w) = true →
  one_timer c i w →
  registry_readable (localStorage (burst c i xs w)) = true ∧
  one_timer c i (burst c i xs w) ∧
  log (burst c i xs w) = log w ∧
  in_flight (burst c i xs w) = in_flight w.
Proof.
  intros Hc Hi. revert w.
  induction xs as [|x xs IH]; intros w Hreg Hone; [done|].
  destruct (buffered_step c i x w Hc Hi Hreg Hone)
    as (ms & Ht & Hk & Hd & [ids Hids] & _ & Hl & Hf).
  unfold burst. simpl. fold (burst c i xs (buffered c i x w)).
  destruct (IH (buffered c i x w)) as (? & ? & Hl' & Hf').
  - unfold registry_readable, getItem. by rewrite Hids.
  - right. eauto.
  - by rewrite Hl', Hf', Hl, Hf.
Qed.

(** After a burst, one timer is armed, and it is the one of the last
    edit; nothing has been sent yet. *)
Lemma burst_last (c i : string) (xs : list edit) (x : edit) (w : world) :
  c ≠ "" → i ≠ "" →
  registry_readable (localStorage w) = true →
  timers w = ∅ →
  ∃ h ms, timers (burst c i (xs ++ [x]) w)
          = {[h := {| handler := closure_of c i x; delay := ms |}]} ∧
          log (burst c i (xs ++ [x]) w) = log w ∧
          in_flight (burst c i (xs ++ [x]) w) = in_flight w.
Proof.
  intros Hc Hi Hreg Hnone.
  destruct (burst_inv c i xs w Hc Hi Hreg) as (Hreg' & Hone' & Hl & Hf);
    [by left|].
  unfold burst. rewrite foldl_app. simpl. fold (burst c i xs w).
  destruct (buffered_step c i x _ Hc Hi Hreg' Hone')
    as (ms & Ht & _ & _ & _ & _ & Hl' & Hf').
  exists (next_timer (burst c i xs w)), ms.
  by rewrite Ht, Hl', Hf', Hl, Hf.
Qed.

Lemma fire_only_timer (h : Z) (t : timer) (w : world) :
  timers w = {[h := t]} →
  timers (Store.fire h w) = ∅ ∧
  log (Store.fire h w)
  = (log w ++ [SetDoc (sb_collectionId (handler t)) (sb_itemId (handler t))
                 (sb_document (handler t)) (Some (negb (sb_overwrite (handler t))))])%list.
Proof.
  intros Ht. unfold Store.fire. rewrite Ht, lookup_singleton_eq. simpl.
  by rewrite Ht, delete_singleton_eq.
Qed.

(** The flush that ends a burst: the one armed timer fires, one [setDoc]
    goes out, and it carries the document and the [overwrite] flag of the
    last edit of the burst. *)
Lemma burst_flush (c i : string) (xs : list edit) (x : edit) (w : world) :
  c ≠ "" → i ≠ "" →
  registry_readable (localStorage w) = true →
  timers w = ∅ →
  ∃ h, (∀ h', is_Some (timers (burst c i (xs ++ [x]) w) !! h') ↔ h' = h) ∧
       timers (Store.fire h (burst c i (xs ++ [x]) w)) = ∅ ∧
       log (Store.fire h (burst c i (xs ++ [x]) w))
       = (log w ++ [SetDoc c i
                      (Store.edit_document (edit_time x) i (edit_data x) (edit_overwrite x))
                      (Some (negb (edit_overwrite x)))])%list.
Proof.
  intros Hc Hi Hreg Hnone.
  destruct (burst_last c i xs x w Hc Hi Hreg Hnone) as (h & ms & Ht & Hl & _).
  exists h. destruct (fire_only_timer h _ _ Ht) as [Hfire Hlog].
  split; [|split; [done|by rewrite Hlog, Hl]].
  intros h'. rewrite Ht, lookup_singleton_is_Some. naive_solver.
Qed.

(** C1 on the code: two buffered edits [{a: 1}] then [{b: 2}] of the same
    document end in one [setDoc], and the document sent is the second
    edit's alone.  The field [a] is in the merged document that was
    cached, and is never sent. *)
Theorem C1_flush_sends_last_edit_only :
  log (Store.fire 2 (burst "notes" "n1" [first_edit; second_edit] initial))
  = [SetDoc "notes" "n1"
       [("b", VNum 2);
        ("_METADATA", VObj [("_DATE_LAST_MODIFIED", VDate 20);
                            ("_DOCUMENT_ID", VStr "n1");
                            ("_DATE_CREATED", VDate 20)])]
       (Some true)] ∧
  timers (Store.fire 2 (burst "notes" "n1" [first_edit; second_edit] initial)) = ∅ ∧
  prop (getItem (localStorage (burst "notes" "n1" [first_edit; second_edit] initial))
          "notes.n1") "a" = VNum 1 ∧
  get_field "a"
    (spread (spread [] (Store.edit_document 10 "n1" edit_a false))
       (Store.edit_document 20 "n1" edit_b false)) = VNum 1.
Proof. vm_compute. done. Qed.

(** C2 as stated fails: in a burst whose first edit has [overwrite = true]
    and whose second has [overwrite = false], the flush is a merging
    write. *)
Lemma C2_overwrite_first_is_forgotten :
  log (Store.fire 2 (burst "notes" "n1" [overwriting_edit; second_edit] initial))
  = [SetDoc "notes" "n1" (Store.edit_document 20 "n1" edit_b false) (Some true)].
Proof. vm_compute. done. Qed.

(** ** What a flush leaves behind *)

Lemma fire_localStorage (h : Z) (w : world) :
  localStorage (Store.fire h w) = localStorage w.
Proof. unfold Store.fire. by destruct (timers w !! h). Qed.

Lemma settle_localStorage (n : nat) (r : settlement) (w : world) :
  localStorage (settle n r w) = localStorage w.
Proof. unfold settle. by destruct (in_flight w !! n). Qed.

(** A buffered write that does not throw leaves the three entries of its
    key in the local store. *)
Lemma buffered_entries (c i : string) (x : edit) (w : world) :
  c ≠ "" → i ≠ "" →
  registry_readable (localStorage w) = true →
  is_Some (localStorage (buffered c i x w) !! Store.documentKey c i) ∧
  is_Some (localStorage (buffered c i x w) !! Store.timerKey c i) ∧
  is_Some (localStorage (buffered c i x w) !! Store.mergeKey c i).
Proof.
  intros Hc Hi Hreg. unfold buffered, Store.SetItem.
  apply String.eqb_neq in Hc as ->. apply String.eqb_neq in Hi as ->. simpl.
  assert (∃ ids, (if negb (truthy (getItem (localStorage w) Store.timerIDsKey))
                  then VArr [] else getItem (localStorage w) Store.timerIDsKey)
                 = VArr ids) as [ids ->].
  { unfold registry_readable in Hreg.
    destruct (getItem (localStorage w) Store.timerIDsKey);
      simpl in *; rewrite ?Hreg; eauto; done. }
  destruct (noItem (localStorage w) (Store.documentKey c i)); simpl.
  - split; [by do 3 apply insert_keeps; rewrite lookup_insert_eq|].
    split; [by do 2 apply insert_keeps; rewrite lookup_insert_eq|].
    by apply insert_keeps; rewrite lookup_insert_eq.
  - split; [|split].
    + do 3 apply insert_keeps.
      destruct (getItem (localStorage w) (Store.timerKey c i)),
        (edit_overwrite x); simpl; by rewrite lookup_insert_eq.
    + by do 2 apply insert_keeps; rewrite lookup_insert_eq.
    + by apply insert_keeps; rewrite lookup_insert_eq.
Qed.

(** C4 as stated fails: after one buffered edit, its timer firing and the
    write succeeding (or failing), the cached document and the timer
    handle of the key are both still in the local store; the key has not
    gone back to having no pending write. *)
Lemma C4_flush_clears_nothing :
  noItem (localStorage (settle 0 Fulfilled
                          (Store.fire 1 (buffered "notes" "n1" first_edit initial))))
         "notes.n1" = false ∧
  localStorage (settle 0 Fulfilled
                  (Store.fire 1 (buffered "notes" "n1" first_edit initial)))
    !! "notes.n1-TIMER" = Some (VNum 1) ∧
  noItem (localStorage (settle 0 (Rejected "unavailable")
                          (Store.fire 1 (buffered "notes" "n1" first_edit initial))))
         "notes.n1" = false ∧
  log (settle 0 Fulfilled (Store.fire 1 (buffered "notes" "n1" first_edit initial)))
  = [SetDoc "notes" "n1" (Store.edit_document 10 "n1" edit_a false) (Some true);
     Callback (Fn 0) SUCCESS (Document (Store.edit_document 10 "n1" edit_a false))].
Proof. vm_compute. done. Qed.

(** ** The registry of timer handles *)

Lemma json_VArr (xs : list value) :
  json (VArr xs)
  = VArr (map (fun x => match x with VUndefined => VNull | _ => json x end) xs).
Proof. done. Qed.

(** Only a number is stored as that number. *)
Lemma json_slot_VNum (x : value) (n : Z) :
  match x with VUndefined => VNull | _ => json x end = VNum n → x = VNum n.
Proof. by destruct x. Qed.

(** C5 as stated fails: after two buffered edits the registry holds the
    handle of the second timer, and it still holds it when that timer has
    fired and the write has completed, with no timer armed any more. *)
Lemma C5_fired_handle_stays_registered :
  localStorage (burst "notes" "n1" [first_edit; second_edit] initial) !! "TIMER_IDS"
  = Some (VArr [VNum 2]) ∧
  localStorage (settle 0 Fulfilled
                  (Store.fire 2 (burst "notes" "n1" [first_edit; second_edit] initial)))
    !! "TIMER_IDS" = Some (VArr [VNum 2]) ∧
  timers (settle 0 Fulfilled
            (Store.fire 2 (burst "notes" "n1" [first_edit; second_edit] initial))) = ∅.
Proof. vm_compute. done. Qed.

(** ** The states the module can reach *)

Lemma registry_array_readable (ls : gmap string value) :
  registry_array ls → registry_readable ls = true.
Proof.
  unfold registry_readable, getItem. by intros [->|[ids ->]].
Qed.

Lemma json_VNum (v : value) (n : Z) : json v = VNum n → v = VNum n.
Proof. by destruct v. Qed.

Lemma well_formed_same (w w' : world) :
  localStorage w' = localStorage w → timers w' = timers w →
  next_timer w' = next_timer w →
  well_formed w → well_formed w'.
Proof.
  unfold well_formed, handles_issued. by intros -> -> ->.
Qed.

Lemma well_formed_setItem (k : string) (v : value) (w : world) :
  k ≠ Store.timerIDsKey → (∀ n, v ≠ VNum n) →
  well_formed w → well_formed (setItem k v w).
Proof.
  intros Hk Hv [Hreg [Hls Htm]]. split; [|split]; simpl.
  - unfold registry_array. by rewrite lookup_insert_ne.
  - intros k' h. destruct (decide (k = k')) as [<-|Hne].
    + rewrite lookup_insert_eq. intros [= H%json_VNum]. by destruct (Hv h).
    + rewrite lookup_insert_ne by done. apply Hls.
  - done.
Qed.

Lemma well_formed_registry (ids : list value) (w : world) :
  well_formed w → well_formed (setItem Store.timerIDsKey (VArr ids) w).
Proof.
  intros [Hreg [Hls Htm]]. split; [|split]; simpl.
  - right. rewrite lookup_insert_eq, json_VArr. eauto.
  - intros k' h. destruct (decide (Store.timerIDsKey = k')) as [<-|Hne].
    + by rewrite lookup_insert_eq, json_VArr.
    + rewrite lookup_insert_ne by done. apply Hls.
  - done.
Qed.

Lemma well_formed_clearTimeout (v : value) (w : world) :
  well_formed w → well_formed (clearTimeout v w).
Proof.
  intros [Hreg [Hls Htm]]. destruct v; try done.
  split; [done|]. split; [done|]. simpl.
  intros h [t Ht]. apply Htm. apply lookup_delete_Some in Ht as [_ Ht]. eauto.
Qed.

(** Arming a timer and recording its handle under a key of the document. *)
Lemma well_formed_arm (k : string) (f : saveToBackend_closure) (ms : Z) (w : world) :
  k ≠ Store.timerIDsKey →
  well_formed w →
  well_formed (setItem k (VNum (setTimeout f ms w).1) (setTimeout f ms w).2).
Proof.
  intros Hk [Hreg [Hls Htm]]. split; [|split]; simpl.
  - unfold registry_array. by rewrite lookup_insert_ne.
  - intros k' h. destruct (decide (k = k')) as [<-|Hne].
    + rewrite lookup_insert_eq. intros [= <-]. lia.
    + rewrite lookup_insert_ne by done. intros H%Hls. lia.
  - intros h [t Ht]. apply lookup_insert_Some in Ht as [[<- _]|[_ Ht]]; [lia|].
    assert (h < next_timer w) by eauto. lia.
Qed.

Lemma well_formed_saveToBackend (f : saveToBackend_closure) (w : world) :
  well_formed w → well_formed (Store.saveToBackend f w).
Proof. by apply well_formed_same. Qed.

Lemma well_formed_SetItem now c i data overwrite cb useDelay (w : world) :
  well_formed w → well_formed (Store.SetItem now c i data overwrite cb useDelay w).1.
Proof.
  intros Hw. unfold Store.SetItem.
  destruct c as [c|], i as [i|], data as [d|]; try by apply (well_formed_same w).
  destruct (String.eqb c "" || String.eqb i ""); [by apply (well_formed_same w)|].
  destruct useDelay; simpl; [|by apply well_formed_saveToBackend].
  pose proof (documentKey_ne_timerIDsKey c i) as Hd.
  pose proof (timerKey_ne_timerIDsKey c i) as Ht.
  pose proof (mergeKey_ne_timerIDsKey c i) as Hm.
  assert (∃ ids, (if negb (truthy (getItem (localStorage w) Store.timerIDsKey))
                  then VArr [] else getItem (localStorage w) Store.timerIDsKey)
                 = VArr ids) as [ids ->].
  { pose proof (registry_array_readable _ (proj1 Hw)) as Hreg.
    unfold registry_readable in Hreg.
    destruct (getItem (localStorage w) Store.timerIDsKey);
      simpl in *; rewrite ?Hreg; eauto; done. }
  destruct (noItem (localStorage w) (Store.documentKey c i)).
  - apply well_formed_registry, well_formed_setItem; [done..|].
    match goal with
    | |- well_formed (setItem _ _ ?w') =>
        match w' with
        | context [ {| handler := ?f; delay := ?ms |} ] =>
            apply (well_formed_arm (Store.timerKey c i) f ms
                     (setItem (Store.documentKey c i)
                        (VObj (Store.edit_document now i d overwrite)) w))
        end
    end; [done|].
    by apply well_formed_setItem.
  - set (w1 := if overwrite then _ else _).
    assert (well_formed w1) as Hw1
      by (subst w1; destruct overwrite; by apply well_formed_setItem).
    set (w2 := clearTimeout _ w1).
    assert (well_formed w2) as Hw2 by by apply well_formed_clearTimeout.
    apply well_formed_registry, well_formed_setItem; [done..|].
    match goal with
    | |- well_formed (setItem _ _ ?w') =>
        match w' with
        | context [ {| handler := ?f; delay := ?ms |} ] =>
            apply (well_formed_arm (Store.timerKey c i) f ms w2)
        end
    end; done.
Qed.

(** Every reachable world is well formed: [SetItem] can always read the
    registry, and no stored handle is one that [setTimeout] has yet to
    return. *)
Lemma reachable_well_formed (w : world) : reachable w → well_formed w.
Proof.
  induction 1 as [|now c i data ov cb ud w _ IH|now id c data cb w _ IH
                  |c i cb w _ IH|h w _ IH|n r w _ IH].
  - split; [by left|]. split; [done|]. intros h [t Ht]. done.
  - by apply well_formed_SetItem.
  - revert IH. apply well_formed_same; unfold Store.AddItem, call;
      by repeat case_match.
  - revert IH. apply well_formed_same; unfold Store.GetItem, call;
      by repeat case_match.
  - unfold Store.fire. destruct (timers w !! h) as [t|] eqn:E; [|done].
    apply well_formed_saveToBackend. destruct IH as [Hreg [Hls Htm]].
    split; [done|]. split; [done|]. simpl.
    intros h' [t' Ht']. apply Htm. apply lookup_delete_Some in Ht' as [_ Ht']. eauto.
  - revert IH. apply well_formed_same; unfold settle; by case_match.
Qed.

(** ** The debounce cycle in reachable states *)

(** C2, amended: the flush that ends a burst of buffered edits of one
    document is a single [setDoc] whose [merge] is the negation of the
    [overwrite] flag of the last edit of the burst, whatever the earlier
    edits asked for. *)
Theorem C2_last_overwrite_decides
    (c i : string) (xs : list edit) (x : edit) (w : world) :
  c ≠ "" → i ≠ "" →
  reachable w →
  timers w = ∅ →
  ∃ h, (∀ h', is_Some (timers (burst c i (xs ++ [x]) w) !! h') ↔ h' = h) ∧
       timers (Store.fire h (burst c i (xs ++ [x]) w)) = ∅ ∧
       log (Store.fire h (burst c i (xs ++ [x]) w))
       = (log w ++ [SetDoc c i (sb_document (closure_of c i x))
                      (Some (negb (edit_overwrite x)))])%list.
Proof.
  intros Hc Hi Hw Hnone. apply burst_flush; [done..| |done].
  by apply registry_array_readable, reachable_well_formed.
Qed.

Lemma C2_last_overwrite_decides_witness :
  ∃ h, (∀ h', is_Some (timers (burst "notes" "n1" ([overwriting_edit] ++ [second_edit])
                                 initial) !! h') ↔ h' = h) ∧
       timers (Store.fire h (burst "notes" "n1" ([overwriting_edit] ++ [second_edit])
                               initial)) = ∅ ∧
       log (Store.fire h (burst "notes" "n1" ([overwriting_edit] ++ [second_edit])
                            initial))
       = (log initial
          ++ [SetDoc "notes" "n1" (sb_document (closure_of "notes" "n1" second_edit))
                (Some (negb (edit_overwrite second_edit)))])%list.
Proof.
  apply (C2_last_overwrite_decides "notes" "n1" [overwriting_edit] second_edit initial);
    [discriminate | discriminate | apply reach_initial | reflexivity].
Defined.

(** C4, amended: a flush, from the timer firing to the write succeeding or
    failing, leaves the local store exactly as the buffered write left it:
    the cached document, the timer handle and the merge flag of the key
    all stay, together.  Nothing is removed, so nothing is removed in
    part, and the next buffered write finds the cache filled. *)
Theorem C4_flush_keeps_local_store
    (c i : string) (x : edit) (w : world) (h : Z) (n : nat) (r : settlement) :
  c ≠ "" → i ≠ "" →
  reachable w →
  localStorage (settle n r (Store.fire h (buffered c i x w)))
  = localStorage (buffered c i x w) ∧
  is_Some (localStorage (settle n r (Store.fire h (buffered c i x w)))
             !! Store.documentKey c i) ∧
  is_Some (localStorage (settle n r (Store.fire h (buffered c i x w)))
             !! Store.timerKey c i) ∧
  is_Some (localStorage (settle n r (Store.fire h (buffered c i x w)))
             !! Store.mergeKey c i) ∧
  noItem (localStorage (settle n r (Store.fire h (buffered c i x w))))
         (Store.documentKey c i) = false.
Proof.
  intros Hc Hi Hw.
  rewrite settle_localStorage, fire_localStorage.
  destruct (buffered_entries c i x w Hc Hi) as (Hd & Ht & Hm).
  { by apply registry_array_readable, reachable_well_formed. }
  repeat (split; [done|]).
  destruct Hd as [v Hv]. unfold noItem. by rewrite Hv.
Qed.

Lemma C4_flush_keeps_local_store_witness :
  localStorage (settle 0 (Rejected "unavailable")
                  (Store.fire 1 (buffered "notes" "n1" first_edit initial)))
  = localStorage (buffered "notes" "n1" first_edit initial) ∧
  is_Some (localStorage (settle 0 (Rejected "unavailable")
                  (Store.fire 1 (buffered "notes" "n1" first_edit initial)))
             !! Store.documentKey "notes" "n1") ∧
  is_Some (localStorage (settle 0 (Rejected "unavailable")
                  (Store.fire 1 (buffered "notes" "n1" first_edit initial)))
             !! Store.timerKey "notes" "n1") ∧
  is_Some (localStorage (settle 0 (Rejected "unavailable")
                  (Store.fire 1 (buffered "notes" "n1" first_edit initial)))
             !! Store.mergeKey "notes" "n1") ∧
  noItem (localStorage (settle 0 (Rejected "unavailable")
                  (Store.fire 1 (buffered "notes" "n1" first_edit initial))))
         (Store.documentKey "notes" "n1") = false.
Proof.
  apply (C4_flush_keeps_local_store "notes" "n1" first_edit initial 1 0%nat
           (Rejected "unavailable"));
    [discriminate | discriminate | apply reach_initial].
Defined.

(** ** The shutdown handler *)

Lemma clearCacheBeforeUnload_array (ls : gmap string value) (ids : list value) (e : event) :
  ls !! "TIMER_IDS" = Some (VArr ids) →
  Store.clearCacheBeforeUnload ls e = Returns e.
Proof.
  intros H. unfold Store.clearCacheBeforeUnload, getItem, Store.timerIDsKey.
  by rewrite H.
Qed.

(** C10 on the code: when [TIMER_IDS] was never written, the handler
    throws a [TypeError] (it reads a property of [null]), in [store.js] and
    in [asyncstore.js] alike. *)
Theorem C10_guard_throws_without_registry (ls : gmap string value) (e : event) :
  ls !! "TIMER_IDS" = None →
  Store.clearCacheBeforeUnload ls e = Throws TypeError ∧
  AsyncStore.clearCacheBeforeUnload ls e = Throws TypeError.
Proof.
  intros H.
  unfold Store.clearCacheBeforeUnload, AsyncStore.clearCacheBeforeUnload,
    getItem, Store.timerIDsKey.
  by rewrite H.
Qed.

Lemma C10_guard_throws_without_registry_witness :
  Store.clearCacheBeforeUnload (localStorage initial)
    {| defaultPrevented := false; returnValue := "" |} = Throws TypeError ∧
  AsyncStore.clearCacheBeforeUnload (localStorage initial)
    {| defaultPrevented := false; returnValue := "" |} = Throws TypeError.
Proof.
  apply (C10_guard_throws_without_registry (localStorage initial)).
  reflexivity.
Defined.

(** C3 on the code: the handler reads the property [lenth], which no array
    has, so whatever handles [TIMER_IDS] holds the event comes back
    untouched and termination is never blocked: not after two buffered
    edits, with a timer armed and its handle in the registry, and not
    after one, when the armed timer is not even in the registry. *)
Theorem C3_guard_never_blocks (ls : gmap string value) (ids : list value) (e : event) :
  Store.clearCacheBeforeUnload (<["TIMER_IDS" := VArr ids]> ls) e = Returns e ∧
  (localStorage (burst "notes" "n1" [first_edit; second_edit] initial) !! "TIMER_IDS"
   = Some (VArr [VNum 2]) ∧
   is_Some (timers (burst "notes" "n1" [first_edit; second_edit] initial) !! 2) ∧
   Store.clearCacheBeforeUnload
     (localStorage (burst "notes" "n1" [first_edit; second_edit] initial)) e
   = Returns e) ∧
  (localStorage (buffered "notes" "n1" first_edit initial) !! "TIMER_IDS"
   = Some (VArr []) ∧
   is_Some (timers (buffered "notes" "n1" first_edit initial) !! 1) ∧
   Store.clearCacheBeforeUnload
     (localStorage (buffered "notes" "n1" first_edit initial)) e
   = Returns e).
Proof.
  split; [eapply clearCacheBeforeUnload_array, lookup_insert_eq|].
  split.
  - split; [by vm_compute|]. split; [vm_compute; eauto|].
    by eapply clearCacheBeforeUnload_array; vm_compute.
  - split; [by vm_compute|]. split; [vm_compute; eauto|].
    by eapply clearCacheBeforeUnload_array; vm_compute.
Qed.

(** * Further properties of the module *)

(** ** Spreading and storing objects *)

Lemma has_key_set_field (k k' : string) (v : value) (o : obj) :
  has_key k (set_field k' v o) = String.eqb k k' || has_key k o.
Proof.
  induction o as [|[k0 v0] o IH]; simpl.
  - by rewrite orb_false_r.
  - destruct (String.eqb k' k0) eqn:E; simpl.
    + apply String.eqb_eq in E as <-. by destruct (String.eqb k k').
    + rewrite IH. by destruct (String.eqb k k'), (String.eqb k k0).
Qed.

Lemma has_key_false (k : string) (o : obj) :
  has_key k o = false → get_field k o = VUndefined.
Proof.
  induction o as [|[k0 v0] o IH]; simpl; [done|].
  destruct (String.eqb k k0); simpl; [done|auto].
Qed.

Lemma has_key_keys (k : string) (o : obj) : has_key k o = true ↔ k ∈ o.*1.
Proof.
  induction o as [|[k0 v0] o IH]; simpl.
  - split; [done|]. by intros ?%elem_of_nil.
  - rewrite elem_of_cons, orb_true_iff, IH, String.eqb_eq. tauto.
Qed.

Lemma has_key_spread (k : string) (a b : obj) :
  has_key k (spread a b) = has_key k a || has_key k b.
Proof.
  revert a. induction b as [|[k' v'] b IH]; intros a; simpl.
  - by rewrite orb_false_r.
  - unfold spread in *. simpl. rewrite IH, has_key_set_field.
    by destruct (String.eqb k k'), (has_key k a), (has_key k b).
Qed.

(** [{ ...a, ...b }]: a property named by [b] comes from [b], any other
    from [a]. *)
Lemma get_field_spread (k : string) (a b : obj) :
  NoDup b.*1 →
  get_field k (spread a b) = if has_key k b then get_field k b else get_field k a.
Proof.
  revert a. induction b as [|[k' v'] b IH]; intros a Hnd; [done|].
  apply NoDup_cons in Hnd as [Hk' Hnd].
  unfold spread in *. simpl. rewrite IH by done.
  destruct (String.eqb k k') eqn:E; simpl.
  - apply String.eqb_eq in E as ->.
    destruct (has_key k' b) eqn:Hb; [by apply has_key_keys in Hb|].
    apply get_field_set_field.
  - destruct (has_key k b); [done|].
    apply get_field_set_field_ne. by apply String.eqb_neq.
Qed.

Lemma keys_set_field (k : string) (v : value) (o : obj) :
  NoDup o.*1 → NoDup (set_field k v o).*1.
Proof.
  induction o as [|[k0 v0] o IH]; simpl; intros Hnd.
  - apply NoDup_singleton.
  - apply NoDup_cons in Hnd as [Hk0 Hnd].
    destruct (String.eqb k k0) eqn:E; simpl.
    + apply String.eqb_eq in E as ->. by apply NoDup_cons.
    + apply NoDup_cons. split; [|auto].
      rewrite <- has_key_keys, has_key_set_field, String.eqb_sym, E. simpl.
      intros H. by apply has_key_keys in H.
Qed.

Lemma keys_spread (a b : obj) : NoDup a.*1 → NoDup (spread a b).*1.
Proof.
  revert a. induction b as [|[k' v'] b IH]; intros a Ha; [done|].
  unfold spread in *. simpl. by apply IH, keys_set_field.
Qed.

Lemma json_VObj (o : obj) : json (VObj o) = VObj (json_fields o).
Proof.
  change (json (VObj o))
    with (VObj ((fix fields (o : obj) : obj :=
                   match o with
                   | [] => []
                   | (k, VUndefined) :: r => fields r
                   | (k, x) :: r => (k, json x) :: fields r
                   end) o)).
  f_equal.
Qed.

Lemma json_not_undefined (v : value) : v ≠ VUndefined → json v ≠ VUndefined.
Proof. by destruct v. Qed.

Lemma json_fields_keys (k : string) (o : obj) :
  has_key k o = false → has_key k (json_fields o) = false.
Proof.
  induction o as [|[k0 v0] o IH]; simpl; [done|].
  intros [E H]%orb_false_iff. destruct v0; simpl; rewrite ?E; auto.
Qed.

(** Reading a property of a stored object: the stored image of the
    property. *)
Lemma get_field_json_fields (k : string) (o : obj) :
  NoDup o.*1 → get_field k (json_fields o) = json (get_field k o).
Proof.
  induction o as [|[k0 v0] o IH]; simpl; intros Hnd; [done|].
  apply NoDup_cons in Hnd as [Hk0 Hnd].
  destruct (String.eqb k k0) eqn:E.
  - apply String.eqb_eq in E as ->.
    assert (has_key k0 o = false) as Hno.
    { destruct (has_key k0 o) eqn:H; [by apply has_key_keys in H|done]. }
    destruct v0; simpl; rewrite ?String.eqb_refl; try done.
    by apply has_key_false, json_fields_keys.
  - destruct v0; simpl; rewrite ?E; auto.
Qed.

Lemma undefined_or_not (x : value) : x = VUndefined ∨ x ≠ VUndefined.
Proof. destruct x; by (left + right). Qed.

Lemma json_slot_json (x : value) :
  x ≠ VUndefined →
  match json x with VUndefined => VNull | _ => json (json x) end = json (json x).
Proof. by destruct x. Qed.

Lemma json_fields_cons_json (k : string) (x : value) (r : obj) :
  x ≠ VUndefined →
  json_fields ((k, json x) :: r) = (k, json (json x)) :: json_fields r.
Proof. by destruct x. Qed.

Lemma json_fields_cons (k : string) (x : value) (r : obj) :
  x ≠ VUndefined →
  json_fields ((k, x) :: r) = (k, json x) :: json_fields r.
Proof. by destruct x. Qed.

(** [JSON.parse(JSON.stringify(_))] changes nothing the second time. *)
Lemma json_idempotent : ∀ v : value, json (json v) = json v.
Proof.
  fix IH 1. intros v. destruct v as [| |b|n|s|t|t|xs|o]; try reflexivity.
  - rewrite !json_VArr. f_equal. rewrite map_map.
    induction xs as [|x xs IHxs]; [reflexivity|].
    simpl. f_equal; [|exact IHxs].
    pose proof (IH x) as Hx. clear IH IHxs.
    destruct (undefined_or_not x) as [->|Hne]; [reflexivity|].
    transitivity (json (json x)); [|by destruct x].
    destruct x; first [reflexivity | by destruct Hne | by apply json_slot_json].
  - rewrite !json_VObj. f_equal.
    induction o as [|[k x] o IHo]; [reflexivity|].
    pose proof (IH x) as Hx. clear IH.
    destruct (undefined_or_not x) as [->|Hne]; [exact IHo|].
    rewrite json_fields_cons, json_fields_cons_json by exact Hne.
    by rewrite Hx, IHo.
Qed.

(** ** What every run keeps *)

Lemma localStorage_clearTimeout (v : value) (w : world) :
  localStorage (clearTimeout v w) = localStorage w.
Proof. by destruct v. Qed.

(** [SetItem] changes the local store by [setItem] only. *)
Lemma SetItem_store_ind (P : gmap string value → Prop)
    now c i data overwrite cb useDelay (w : world) :
  (∀ k v ls, P ls → P (<[k := json v]> ls)) →
  P (localStorage w) →
  P (localStorage (Store.SetItem now c i data overwrite cb useDelay w).1).
Proof.
  intros Hset Hw. unfold Store.SetItem.
  destruct c as [c|], i as [i|], data as [d|]; try done.
  destruct (String.eqb c "" || String.eqb i ""); [done|].
  destruct useDelay; [|done]. simpl.
  destruct (noItem (localStorage w) (Store.documentKey c i)).
  - simpl. by do 4 apply Hset.
  - set (w1 := if overwrite then _ else _).
    assert (P (localStorage w1)) as Hw1
      by (subst w1; destruct overwrite; by apply Hset).
    destruct (if negb (truthy (getItem (localStorage w) Store.timerIDsKey))
              then VArr [] else getItem (localStorage w) Store.timerIDsKey);
      simpl; rewrite ?localStorage_clearTimeout; try done.
    by do 3 apply Hset.
Qed.

Lemma reaches_store_ind (P : gmap string value → Prop) (w0 w : world) :
  (∀ k v ls, P ls → P (<[k := json v]> ls)) →
  reaches w0 w → P (localStorage w0) → P (localStorage w).
Proof.
  intros Hset Hrun H0.
  induction Hrun as [|now c i data ov cb ud w _ IH|now id c data cb w _ IH
                     |c i cb w _ IH|h w _ IH|n r w _ IH].
  - done.
  - by apply SetItem_store_ind.
  - unfold Store.AddItem, call. by repeat case_match.
  - unfold Store.GetItem, call. by repeat case_match.
  - by rewrite fire_localStorage.
  - by rewrite settle_localStorage.
Qed.

Lemma reachable_reaches (w : world) : reachable w ↔ reaches initial w.
Proof. split; induction 1; by constructor. Qed.

Lemma reaches_reachable (w0 w : world) : reachable w0 → reaches w0 w → reachable w.
Proof. intros H0. induction 1; [done|by constructor..]. Qed.



Lemma entries_stay (w0 w : world) (k : string) :
  reaches w0 w →
  is_Some (localStorage w0 !! k) →
  is_Some (localStorage w !! k).
Proof.
  intros Hrun. apply (reaches_store_ind (λ ls, is_Some (ls !! k))); [|done].
  intros k' v ls. apply insert_keeps.
Qed.

(** X2: no operation ever removes an entry from the local store: a key
    that is there stays there through any later calls, timers firing and
    writes settling. *)
Theorem local_store_never_shrinks (w0 w : world) (k : string) :
  reaches w0 w →
  is_Some (localStorage w0 !! k) →
  is_Some (localStorage w !! k).
Proof. apply entries_stay. Qed.

Lemma local_store_never_shrinks_witness :
  is_Some (localStorage
             (settle 0 Fulfilled (Store.fire 1 (buffered "notes" "n1" first_edit initial)))
             !! "notes.n1").
Proof.
  apply (local_store_never_shrinks (buffered "notes" "n1" first_edit initial)).
  - apply reaches_settle, reaches_fire, reaches_here.
  - vm_compute. eauto.
Defined.

(** X3: everything in the local store is plain JSON data, in every
    reachable state: storing it again would store the same thing (no
    [Date] object and no [undefined] is ever kept). *)
Theorem local_store_holds_json (w : world) (k : string) (v : value) :
  reachable w →
  localStorage w !! k = Some v →
  json v = v.
Proof.
  intros Hw%reachable_reaches. revert k v.
  apply (reaches_store_ind (λ ls, ∀ k v, ls !! k = Some v → json v = v) initial w);
    [|done|done].
  intros k' v' ls Hls k v. destruct (decide (k' = k)) as [->|Hne].
  - rewrite lookup_insert_eq. intros [= <-]. apply json_idempotent.
  - rewrite lookup_insert_ne by done. apply Hls.
Qed.

Lemma local_store_holds_json_witness :
  json (VObj [("a", VNum 1);
              ("_METADATA", VObj [("_DATE_LAST_MODIFIED", VIso 10);
                                  ("_DOCUMENT_ID", VStr "n1");
                                  ("_DATE_CREATED", VIso 10)])])
  = VObj [("a", VNum 1);
          ("_METADATA", VObj [("_DATE_LAST_MODIFIED", VIso 10);
                              ("_DOCUMENT_ID", VStr "n1");
                              ("_DATE_CREATED", VIso 10)])].
Proof.
  apply (local_store_holds_json (buffered "notes" "n1" first_edit initial) "notes.n1").
  - apply reach_SetItem, reach_initial.
  - vm_compute. reflexivity.
Defined.

(** ** Timers and callbacks of buffered writes *)

(** What one buffered write arms, and that it does nothing else yet. *)
Lemma buffered_arms (c i : string) (x : edit) (w : world) :
  c ≠ "" → i ≠ "" →
  registry_readable (localStorage w) = true →
  timers (buffered c i x w) !! next_timer w
  = Some {| handler := closure_of c i x;
            delay := if noItem (localStorage w) (Store.documentKey c i)
                     then 5000 else 3000 |} ∧
  log (buffered c i x w) = log w ∧
  in_flight (buffered c i x w) = in_flight w.
Proof.
  intros Hc Hi Hreg. unfold buffered, Store.SetItem.
  apply String.eqb_neq in Hc as ->. apply String.eqb_neq in Hi as ->. simpl.
  assert (∃ ids, (if negb (truthy (getItem (localStorage w) Store.timerIDsKey))
                  then VArr [] else getItem (localStorage w) Store.timerIDsKey)
                 = VArr ids) as [ids ->].
  { unfold registry_readable in Hreg.
    destruct (getItem (localStorage w) Store.timerIDsKey);
      simpl in *; rewrite ?Hreg; eauto; done. }
  destruct (noItem (localStorage w) (Store.documentKey c i)); simpl.
  - by rewrite lookup_insert_eq.
  - set (w1 := if edit_overwrite x then _ else _).
    assert (next_timer w1 = next_timer w ∧ log w1 = log w ∧ in_flight w1 = in_flight w)
      as (Hn1 & Hl1 & Hf1) by (subst w1; by destruct (edit_overwrite x)).
    destruct (getItem (localStorage w) (Store.timerKey c i)); simpl;
      by rewrite Hn1, lookup_insert_eq.
Qed.

(** X4: the first buffered write of a document (nothing cached under its
    key) arms a 5000 ms timer; once a document has been written with
    [useDelay], every later buffered write of it arms a 3000 ms timer,
    whatever happened in between, flushes included. *)
Theorem buffered_delays (c i : string) (x0 x : edit) (w0 : world) :
  c ≠ "" → i ≠ "" →
  reachable w0 →
  (localStorage w0 !! Store.documentKey c i = None →
   timers (buffered c i x0 w0) !! next_timer w0
   = Some {| handler := closure_of c i x0; delay := 5000 |}) ∧
  (∀ w, reaches (buffered c i x0 w0) w →
        timers (buffered c i x w) !! next_timer w
        = Some {| handler := closure_of c i x; delay := 3000 |}).
Proof.
  intros Hc Hi Hw0.
  assert (registry_readable (localStorage w0) = true) as Hreg0
    by by apply registry_array_readable, reachable_well_formed.
  split.
  - intros Hnone. destruct (buffered_arms c i x0 w0 Hc Hi Hreg0) as [-> _].
    unfold noItem. by rewrite bool_decide_eq_true_2.
  - intros w Hrun.
    assert (reachable w) as Hw.
    { apply (reaches_reachable (buffered c i x0 w0)); [|done]. by apply reach_SetItem. }
    destruct (buffered_arms c i x w Hc Hi) as [-> _].
    { by apply registry_array_readable, reachable_well_formed. }
    destruct (entries_stay _ w (Store.documentKey c i) Hrun) as [v Hv].
    { by apply buffered_entries. }
    unfold noItem. rewrite bool_decide_eq_false_2; [done|congruence].
Qed.

Lemma buffered_delays_witness :
  (localStorage initial !! Store.documentKey "notes" "n1" = None →
   timers (buffered "notes" "n1" first_edit initial) !! next_timer initial
   = Some {| handler := closure_of "notes" "n1" first_edit; delay := 5000 |}) ∧
  (∀ w, reaches (buffered "notes" "n1" first_edit initial) w →
        timers (buffered "notes" "n1" second_edit w) !! next_timer w
        = Some {| handler := closure_of "notes" "n1" second_edit; delay := 3000 |}).
Proof.
  apply (buffered_delays "notes" "n1" first_edit second_edit initial);
    [discriminate | discriminate | apply reach_initial].
Defined.

Lemma fire_armed (h : Z) (t : timer) (w : world) :
  timers w !! h = Some t →
  Store.fire h w = Store.saveToBackend (handler t) (disarm h w).
Proof. intros Ht. unfold Store.fire. by rewrite Ht. Qed.

(** X5: of all the callbacks passed in a burst of buffered writes, only
    the last one is ever called, once, when the single flush settles:
    with [SUCCESS] and the last document, or with [ERROR] and the backend
    error.  Nothing of the burst is left pending afterwards, so the
    callbacks of the earlier writes are never called. *)
Theorem burst_calls_last_callback_only
    (c i : string) (xs : list edit) (x : edit) (w : world) (r : settlement) :
  c ≠ "" → i ≠ "" →
  reachable w →
  timers w = ∅ →
  ∃ h,
    log (settle (length (in_flight w)) r (Store.fire h (burst c i (xs ++ [x]) w)))
    = (log w ++
       [SetDoc c i (sb_document (closure_of c i x)) (Some (negb (edit_overwrite x)));
        match r with
        | Fulfilled =>
            Callback (default Noop (edit_callback x)) SUCCESS
              (Document (sb_document (closure_of c i x)))
        | Rejected e => Callback (default Noop (edit_callback x)) ERROR (BackendFailure e)
        end])%list ∧
    timers (settle (length (in_flight w)) r (Store.fire h (burst c i (xs ++ [x]) w))) = ∅ ∧
    in_flight (settle (length (in_flight w)) r (Store.fire h (burst c i (xs ++ [x]) w)))
    = in_flight w.
Proof.
  intros Hc Hi Hw Hnone.
  destruct (burst_last c i xs x w Hc Hi) as (h & ms & Ht & Hl & Hf); [|done|].
  { by apply registry_array_readable, reachable_well_formed. }
  exists h. rewrite (fire_armed h _ _ ltac:(by rewrite Ht, lookup_singleton_eq)).
  unfold settle, Store.saveToBackend. simpl.
  rewrite Hf, Hl, Ht, lookup_app_r, Nat.sub_diag by lia. simpl.
  rewrite delete_singleton_eq, <- app_assoc.
  split; [by destruct r|]. split; [done|].
  rewrite (delete_middle (in_flight w) []). apply app_nil_r.
Qed.

Lemma burst_calls_last_callback_only_witness :
  ∃ h,
    log (settle (length (in_flight initial)) Fulfilled
           (Store.fire h (burst "notes" "n1" ([first_edit] ++ [second_edit]) initial)))
    = (log initial ++
       [SetDoc "notes" "n1" (sb_document (closure_of "notes" "n1" second_edit))
          (Some (negb (edit_overwrite second_edit)));
        Callback (default Noop (edit_callback second_edit)) SUCCESS
          (Document (sb_document (closure_of "notes" "n1" second_edit)))])%list ∧
    timers (settle (length (in_flight initial)) Fulfilled
              (Store.fire h (burst "notes" "n1" ([first_edit] ++ [second_edit]) initial)))
    = ∅ ∧
    in_flight (settle (length (in_flight initial)) Fulfilled
                 (Store.fire h (burst "notes" "n1" ([first_edit] ++ [second_edit]) initial)))
    = in_flight initial.
Proof.
  apply (burst_calls_last_callback_only "notes" "n1" [first_edit] second_edit initial
           Fulfilled);
    [discriminate | discriminate | apply reach_initial | reflexivity].
Defined.

(** X6: after a burst of buffered writes one timer is live.  Any other
    handle, those of the superseded writes included, is dead: its firing
    changes nothing.  The live timer sends once: fired again, it changes
    nothing either. *)
Theorem superseded_timers_are_dead
    (c i : string) (xs : list edit) (x : edit) (w : world) :
  c ≠ "" → i ≠ "" →
  reachable w →
  timers w = ∅ →
  ∃ h, is_Some (timers (burst c i (xs ++ [x]) w) !! h) ∧
       (∀ h', h' ≠ h →
              Store.fire h' (burst c i (xs ++ [x]) w) = burst c i (xs ++ [x]) w) ∧
       Store.fire h (Store.fire h (burst c i (xs ++ [x]) w))
       = Store.fire h (burst c i (xs ++ [x]) w).
Proof.
  intros Hc Hi Hw Hnone.
  destruct (burst_last c i xs x w Hc Hi) as (h & ms & Ht & _); [|done|].
  { by apply registry_array_readable, reachable_well_formed. }
  exists h. split; [by rewrite Ht, lookup_singleton_eq|]. split.
  - intros h' Hne. unfold Store.fire. by rewrite Ht, lookup_singleton_ne.
  - destruct (fire_only_timer h _ _ Ht) as [Hfired _].
    unfold Store.fire at 1. by rewrite Hfired, lookup_empty.
Qed.

Lemma superseded_timers_are_dead_witness :
  ∃ h, is_Some (timers (burst "notes" "n1" ([first_edit] ++ [second_edit]) initial) !! h) ∧
       (∀ h', h' ≠ h →
              Store.fire h' (burst "notes" "n1" ([first_edit] ++ [second_edit]) initial)
              = burst "notes" "n1" ([first_edit] ++ [second_edit]) initial) ∧
       Store.fire h (Store.fire h (burst "notes" "n1" ([first_edit] ++ [second_edit])
                                     initial))
       = Store.fire h (burst "notes" "n1" ([first_edit] ++ [second_edit]) initial).
Proof.
  apply (superseded_timers_are_dead "notes" "n1" [first_edit] second_edit initial);
    [discriminate | discriminate | apply reach_initial | reflexivity].
Defined.

(** X7: an immediate [SetItem] does not cancel a buffered write of the
    same document that is still waiting.  The timer stays armed, and when
    it fires the older, buffered document is sent after the newer one. *)
Theorem immediate_write_leaves_pending_flush
    (c i : string) (x y : edit) (w : world) :
  c ≠ "" → i ≠ "" →
  reachable w →
  is_Some (timers (immediate c i y (buffered c i x w)) !! next_timer w) ∧
  log (immediate c i y (buffered c i x w))
  = (log w ++ [SetDoc c i (sb_document (closure_of c i y))
                 (Some (negb (edit_overwrite y)))])%list ∧
  log (Store.fire (next_timer w) (immediate c i y (buffered c i x w)))
  = (log w ++ [SetDoc c i (sb_document (closure_of c i y))
                 (Some (negb (edit_overwrite y)));
               SetDoc c i (sb_document (closure_of c i x))
                 (Some (negb (edit_overwrite x)))])%list.
Proof.
  intros Hc Hi Hw.
  destruct (buffered_arms c i x w Hc Hi) as (Ht & Hl & _).
  { by apply registry_array_readable, reachable_well_formed. }
  assert (immediate c i y (buffered c i x w)
          = Store.saveToBackend (closure_of c i y) (buffered c i x w)) as ->.
  { unfold immediate, Store.SetItem.
    apply String.eqb_neq in Hc as ->. by apply String.eqb_neq in Hi as ->. }
  split; [by unfold Store.saveToBackend; simpl; rewrite Ht; eauto|].
  split; [by simpl; rewrite Hl|].
  erewrite fire_armed by (unfold Store.saveToBackend; simpl; exact Ht).
  simpl. by rewrite Hl, <- app_assoc.
Qed.

Lemma immediate_write_leaves_pending_flush_witness :
  is_Some (timers (immediate "notes" "n1" second_edit
                     (buffered "notes" "n1" first_edit initial)) !! next_timer initial) ∧
  log (immediate "notes" "n1" second_edit (buffered "notes" "n1" first_edit initial))
  = (log initial ++ [SetDoc "notes" "n1" (sb_document (closure_of "notes" "n1" second_edit))
                       (Some (negb (edit_overwrite second_edit)))])%list ∧
  log (Store.fire (next_timer initial)
         (immediate "notes" "n1" second_edit (buffered "notes" "n1" first_edit initial)))
  = (log initial ++ [SetDoc "notes" "n1" (sb_document (closure_of "notes" "n1" second_edit))
                       (Some (negb (edit_overwrite second_edit)));
                     SetDoc "notes" "n1" (sb_document (closure_of "notes" "n1" first_edit))
                       (Some (negb (edit_overwrite first_edit)))])%list.
Proof.
  apply (immediate_write_leaves_pending_flush "notes" "n1" first_edit second_edit initial);
    [discriminate | discriminate | apply reach_initial].
Defined.

(** ** Documents that share a key *)

Lemma string_app_assoc (a b c : string) : (a +:+ b) +:+ c = a +:+ (b +:+ c).
Proof.
  induction a as [|x a IH]; [done|].
  change (String x ((a +:+ b) +:+ c) = String x (a +:+ b +:+ c)). by f_equal.
Qed.

Lemma string_app_nil_r (a : string) : a +:+ "" = a.
Proof.
  induction a as [|x a IH]; [done|].
  change (String x (a +:+ "") = String x a). by f_equal.
Qed.

Lemma string_app_ne_self (s t : string) : t ≠ "" → s +:+ t ≠ s.
Proof.
  intros Ht H. rewrite <- (string_app_nil_r s) in H at 2.
  by apply append_inj_l in H.
Qed.

Lemma documentKey_collision (c m i : string) :
  Store.documentKey (c +:+ "." +:+ m) i = Store.documentKey c (m +:+ "." +:+ i).
Proof. unfold Store.documentKey. by rewrite !string_app_assoc. Qed.

(** X8: the cache keys are the collection id and the document id joined
    by a dot, so the documents [(c.m, i)] and [(c, m.i)] share them.  A
    buffered write of the second while a buffered write of the first is
    waiting takes its place: the first's timer is cancelled and only the
    second document is ever sent. *)
Theorem colliding_documents_share_pending_write
    (c m i : string) (x1 x2 : edit) (w : world) :
  c ≠ "" → i ≠ "" →
  reachable w →
  timers w = ∅ →
  c +:+ "." +:+ m ≠ c ∧
  ∃ h, (∀ h', is_Some (timers (buffered c (m +:+ "." +:+ i) x2
                                 (buffered (c +:+ "." +:+ m) i x1 w)) !! h') ↔ h' = h) ∧
       timers (Store.fire h (buffered c (m +:+ "." +:+ i) x2
                               (buffered (c +:+ "." +:+ m) i x1 w))) = ∅ ∧
       log (Store.fire h (buffered c (m +:+ "." +:+ i) x2
                            (buffered (c +:+ "." +:+ m) i x1 w)))
       = (log w ++ [SetDoc c (m +:+ "." +:+ i)
                      (sb_document (closure_of c (m +:+ "." +:+ i) x2))
                      (Some (negb (edit_overwrite x2)))])%list.
Proof.
  intros Hc Hi Hw Hnone.
  split; [by apply string_app_ne_self|].
  assert (c +:+ "." +:+ m ≠ "") as Hc1 by by destruct c.
  assert (m +:+ "." +:+ i ≠ "") as Hi2 by by destruct m.
  destruct (buffered_step (c +:+ "." +:+ m) i x1 w Hc1 Hi)
    as (ms1 & Ht1 & Hk1 & Hd1 & [ids Hids] & _ & Hl1 & _); [|by left|].
  { by apply registry_array_readable, reachable_well_formed. }
  destruct (buffered_step c (m +:+ "." +:+ i) x2
              (buffered (c +:+ "." +:+ m) i x1 w) Hc Hi2)
    as (ms2 & Ht2 & _ & _ & _ & _ & Hl2 & _).
  { unfold registry_readable, getItem. by rewrite Hids. }
  { right. unfold Store.timerKey in *. rewrite <- documentKey_collision. eauto. }
  destruct (fire_only_timer _ _ _ Ht2) as [Hfired Hlog].
  eexists. split; [|split; [exact Hfired|by rewrite Hlog, Hl2, Hl1]].
  intros h'. rewrite Ht2, lookup_singleton_is_Some. naive_solver.
Qed.

Lemma colliding_documents_share_pending_write_witness :
  "a" +:+ "." +:+ "b" ≠ "a" ∧
  ∃ h, (∀ h', is_Some (timers (buffered "a" ("b" +:+ "." +:+ "c") second_edit
                                 (buffered ("a" +:+ "." +:+ "b") "c" first_edit initial))
                         !! h') ↔ h' = h) ∧
       timers (Store.fire h (buffered "a" ("b" +:+ "." +:+ "c") second_edit
                               (buffered ("a" +:+ "." +:+ "b") "c" first_edit initial)))
       = ∅ ∧
       log (Store.fire h (buffered "a" ("b" +:+ "." +:+ "c") second_edit
                            (buffered ("a" +:+ "." +:+ "b") "c" first_edit initial)))
       = (log initial ++ [SetDoc "a" ("b" +:+ "." +:+ "c")
                            (sb_document (closure_of "a" ("b" +:+ "." +:+ "c") second_edit))
                            (Some (negb (edit_overwrite second_edit)))])%list.
Proof.
  apply (colliding_documents_share_pending_write "a" "b" "c" first_edit second_edit initial);
    [discriminate | discriminate | apply reach_initial | reflexivity].
Defined.

(** ** What is cached and what is stamped *)

Lemma get_field_spread_nil (k : string) (o : obj) :
  NoDup o.*1 → get_field k (spread [] o) = get_field k o.
Proof.
  intros Hnd. rewrite get_field_spread by done.
  destruct (has_key k o) eqn:E; [done|]. by rewrite (has_key_false k o).
Qed.

Lemma documentKey_ne_timerKey (c i : string) : Store.timerKey c i ≠ Store.documentKey c i.
Proof. unfold Store.timerKey. by apply string_app_ne_self. Qed.

Lemma documentKey_ne_mergeKey (c i : string) : Store.mergeKey c i ≠ Store.documentKey c i.
Proof. unfold Store.mergeKey. by apply string_app_ne_self. Qed.

(** The document cached by a buffered write onto a cached object. *)
Lemma buffered_cache (c i : string) (x : edit) (w : world) (o : obj) :
  c ≠ "" → i ≠ "" →
  registry_readable (localStorage w) = true →
  localStorage w !! Store.documentKey c i = Some (VObj o) →
  getItem (localStorage (buffered c i x w)) (Store.documentKey c i)
  = json (VObj (if edit_overwrite x then sb_document (closure_of c i x)
                else spread (spread [] o) (sb_document (closure_of c i x)))).
Proof.
  intros Hc Hi Hreg Hdoc. unfold buffered, Store.SetItem.
  apply String.eqb_neq in Hc as ->. apply String.eqb_neq in Hi as ->. simpl.
  assert (∃ ids, (if negb (truthy (getItem (localStorage w) Store.timerIDsKey))
                  then VArr [] else getItem (localStorage w) Store.timerIDsKey)
                 = VArr ids) as [ids ->].
  { unfold registry_readable in Hreg.
    destruct (getItem (localStorage w) Store.timerIDsKey);
      simpl in *; rewrite ?Hreg; eauto; done. }
  unfold noItem. rewrite bool_decide_eq_false_2 by congruence.
  assert (getItem (localStorage w) (Store.documentKey c i) = VObj o) as ->
    by (unfold getItem; by rewrite Hdoc).
  pose proof (documentKey_ne_timerKey c i).
  pose proof (documentKey_ne_mergeKey c i).
  assert (Store.timerIDsKey ≠ Store.documentKey c i)
    by (intros ?; by apply (documentKey_ne_timerIDsKey c i)).
  simpl. unfold getItem.
  rewrite !lookup_insert_ne, localStorage_clearTimeout by done.
  destruct (edit_overwrite x); simpl; by rewrite lookup_insert_eq.
Qed.

(** X9: a merging buffered write ([overwrite = false]) onto a cached
    document caches, for every property other than [_METADATA], the new
    data's value when the new data names the property and the cached value
    when it does not; an overwriting one caches the new stamped document
    alone.  (What is cached is the JSON image of those values.) *)
Theorem cache_merges_shallowly
    (c i : string) (x : edit) (w : world) (o : obj) :
  c ≠ "" → i ≠ "" →
  registry_readable (localStorage w) = true →
  localStorage w !! Store.documentKey c i = Some (VObj o) →
  NoDup o.*1 → NoDup (edit_data x).*1 →
  (edit_overwrite x = false →
   ∀ k, k ≠ "_METADATA" →
        prop (getItem (localStorage (buffered c i x w)) (Store.documentKey c i)) k
        = json (if has_key k (edit_data x) then get_field k (edit_data x)
                else get_field k o)) ∧
  (edit_overwrite x = true →
   getItem (localStorage (buffered c i x w)) (Store.documentKey c i)
   = json (VObj (sb_document (closure_of c i x)))).
Proof.
  intros Hc Hi Hreg Hdoc Ho Hd.
  rewrite (buffered_cache c i x w o) by done.
  split; intros ->; [|done]. intros k Hk.
  rewrite json_VObj. simpl.
  rewrite get_field_json_fields by by apply keys_spread, keys_spread, NoDup_nil.
  f_equal. unfold Store.edit_document.
  assert (String.eqb k "_METADATA" = false) as Hk' by by apply String.eqb_neq.
  rewrite get_field_spread by by apply keys_set_field, keys_spread, NoDup_nil.
  rewrite has_key_set_field, Hk', has_key_spread, get_field_set_field_ne by done.
  rewrite !get_field_spread_nil by done. simpl.
  by destruct (has_key k (edit_data x)).
Qed.

Lemma cache_merges_shallowly_witness :
  (edit_overwrite second_edit = false →
   ∀ k, k ≠ "_METADATA" →
        prop (getItem (localStorage (buffered "notes" "n1" second_edit
                                       (buffered "notes" "n1" first_edit initial)))
                (Store.documentKey "notes" "n1")) k
        = json (if has_key k (edit_data second_edit)
                then get_field k (edit_data second_edit)
                else get_field k
                       [("a", VNum 1);
                        ("_METADATA", VObj [("_DATE_LAST_MODIFIED", VIso 10);
                                            ("_DOCUMENT_ID", VStr "n1");
                                            ("_DATE_CREATED", VIso 10)])])) ∧
  (edit_overwrite second_edit = true →
   getItem (localStorage (buffered "notes" "n1" second_edit
                            (buffered "notes" "n1" first_edit initial)))
     (Store.documentKey "notes" "n1")
   = json (VObj (sb_document (closure_of "notes" "n1" second_edit)))).
Proof.
  apply (cache_merges_shallowly "notes" "n1" second_edit
           (buffered "notes" "n1" first_edit initial)).
  - discriminate.
  - discriminate.
  - vm_compute. reflexivity.
  - vm_compute. reflexivity.
  - cbn. compute_done.
  - cbn. compute_done.
Defined.

(** X10: the stamp of [SetItem] touches [_METADATA] only.  Every other
    property of the data reaches the stamped document unchanged;
    [_METADATA] is replaced as a whole by a block that always has
    [_DOCUMENT_ID = itemId] and [_DATE_LAST_MODIFIED = now], has a fresh
    [_DATE_CREATED = now] when [overwrite] is set or the data brings none,
    and has no other property, whatever the data's own [_METADATA]
    held. *)
Theorem edit_document_stamp
    (now : Z) (itemId : string) (data : obj) (overwrite : bool) :
  NoDup data.*1 →
  (∀ k, k ≠ "_METADATA" →
        get_field k (Store.edit_document now itemId data overwrite) = get_field k data) ∧
  prop (get_field "_METADATA" (Store.edit_document now itemId data overwrite))
       "_DOCUMENT_ID" = VStr itemId ∧
  prop (get_field "_METADATA" (Store.edit_document now itemId data overwrite))
       "_DATE_LAST_MODIFIED" = VDate now ∧
  (overwrite = true ∨ truthy (prop (get_field "_METADATA" data) "_DATE_CREATED") = false →
   prop (get_field "_METADATA" (Store.edit_document now itemId data overwrite))
        "_DATE_CREATED" = VDate now) ∧
  (∀ k, k ≠ "_DOCUMENT_ID" → k ≠ "_DATE_LAST_MODIFIED" → k ≠ "_DATE_CREATED" →
        prop (get_field "_METADATA" (Store.edit_document now itemId data overwrite)) k
        = VUndefined).
Proof.
  intros Hnd. unfold Store.edit_document. rewrite get_field_set_field.
  split.
  { intros k Hk. by rewrite get_field_set_field_ne, get_field_spread_nil. }
  split; [|split; [|split]].
  - unfold Store.edit_METADATA. by case_match.
  - unfold Store.edit_METADATA. by case_match.
  - intros H. by rewrite edit_METADATA_fresh.
  - intros k H1 H2 H3.
    apply String.eqb_neq in H1, H2, H3.
    unfold Store.edit_METADATA. case_match; simpl; by rewrite H1, H2, ?H3.
Qed.

Lemma edit_document_stamp_witness :
  (∀ k, k ≠ "_METADATA" →
        get_field k (Store.edit_document 9 "n1" stored_note false)
        = get_field k stored_note) ∧
  prop (get_field "_METADATA" (Store.edit_document 9 "n1" stored_note false))
       "_DOCUMENT_ID" = VStr "n1" ∧
  prop (get_field "_METADATA" (Store.edit_document 9 "n1" stored_note false))
       "_DATE_LAST_MODIFIED" = VDate 9 ∧
  (false = true ∨ truthy (prop (get_field "_METADATA" stored_note) "_DATE_CREATED") = false →
   prop (get_field "_METADATA" (Store.edit_document 9 "n1" stored_note false))
        "_DATE_CREATED" = VDate 9) ∧
  (∀ k, k ≠ "_DOCUMENT_ID" → k ≠ "_DATE_LAST_MODIFIED" → k ≠ "_DATE_CREATED" →
        prop (get_field "_METADATA" (Store.edit_document 9 "n1" stored_note false)) k
        = VUndefined).
Proof.
  apply (edit_document_stamp 9 "n1" stored_note false).
  cbn. compute_done.
Defined.

(** ** The create path, and calls without a callback *)

(** X11: a valid [AddItem] stores every property of the data other than
    [_METADATA] unchanged, replaces [_METADATA] as a whole by the three
    stamped properties, touches neither the local store nor the timers,
    and calls the callback once, when the write settles: with [SUCCESS]
    and the new reference, or with [ERROR] and the backend error. *)
Theorem AddItem_stores_data
    (now : Z) (new_id c : string) (data : obj) (cb : fn) (w : world) (r : settlement) :
  c ≠ "" → NoDup data.*1 →
  ∃ d, log (Store.AddItem now new_id (Some c) (Some data) (Some cb) w).1
       = (log w ++ [SetDoc c new_id d None])%list ∧
       (∀ k, k ≠ "_METADATA" → get_field k d = get_field k data) ∧
       get_field "_METADATA" d
       = VObj [("_DATE_LAST_MODIFIED", VDate now); ("_DATE_CREATED", VDate now);
               ("_DOCUMENT_ID", VStr new_id)] ∧
       log (settle (length (in_flight w)) r
              (Store.AddItem now new_id (Some c) (Some data) (Some cb) w).1)
       = (log w ++ [SetDoc c new_id d None;
                    match r with
                    | Fulfilled => Callback cb SUCCESS (DocRef c new_id)
                    | Rejected e => Callback cb ERROR (BackendFailure e)
                    end])%list ∧
       localStorage (Store.AddItem now new_id (Some c) (Some data) (Some cb) w).1
       = localStorage w ∧
       timers (Store.AddItem now new_id (Some c) (Some data) (Some cb) w).1 = timers w.
Proof.
  intros Hc Hnd. unfold Store.AddItem.
  apply String.eqb_neq in Hc as ->. cbn [fst].
  eexists. split; [reflexivity|].
  split; [|split; [apply get_field_set_field|split; [|done]]].
  - intros k Hk. by rewrite get_field_set_field_ne, get_field_spread_nil.
  - rewrite settle_new_promise by done. simpl. rewrite <- app_assoc. by destruct r.
Qed.

Lemma AddItem_stores_data_witness :
  ∃ d, log (Store.AddItem 7 "g1" (Some "notes") (Some stored_note) (Some (Fn 0)) initial).1
       = (log initial ++ [SetDoc "notes" "g1" d None])%list ∧
       (∀ k, k ≠ "_METADATA" → get_field k d = get_field k stored_note) ∧
       get_field "_METADATA" d
       = VObj [("_DATE_LAST_MODIFIED", VDate 7); ("_DATE_CREATED", VDate 7);
               ("_DOCUMENT_ID", VStr "g1")] ∧
       log (settle (length (in_flight initial)) (Rejected "unavailable")
              (Store.AddItem 7 "g1" (Some "notes") (Some stored_note) (Some (Fn 0))
                 initial).1)
       = (log initial ++ [SetDoc "notes" "g1" d None;
                          Callback (Fn 0) ERROR (BackendFailure "unavailable")])%list ∧
       localStorage (Store.AddItem 7 "g1" (Some "notes") (Some stored_note) (Some (Fn 0))
                       initial).1
       = localStorage initial ∧
       timers (Store.AddItem 7 "g1" (Some "notes") (Some stored_note) (Some (Fn 0))
                 initial).1 = timers initial.
Proof.
  apply (AddItem_stores_data 7 "g1" "notes" stored_note (Fn 0) initial
           (Rejected "unavailable")).
  - discriminate.
  - cbn. compute_done.
Defined.

(** X12: [GetItem] and [AddItem] take a missing callback for a parameter
    error and report it by calling the callback: called without one they
    throw a [TypeError], whatever the other arguments, and do nothing
    else. *)
Theorem missing_callback_throws
    (now : Z) (new_id : string) (c i : option string) (data : option obj) (w : world) :
  Store.GetItem c i None w = (w, Some TypeError) ∧
  Store.AddItem now new_id c data None w = (w, Some TypeError).
Proof.
  split.
  - unfold Store.GetItem. rewrite bool_decide_eq_false_2 by by intros [].
    by rewrite orb_true_r.
  - unfold Store.AddItem. by destruct c, data.
Qed.

(** ** The operations that pass through *)

(** X13: [RemoveItem] calls the callback exactly once on every path:
    with [SUCCESS] only when both identifiers are given and the delete
    went through, otherwise with [ERROR].  Without both identifiers it
    reports and asks the backend nothing. *)
Theorem RemoveItem_reports_once
    (c i : option string) (cb : option fn) (r : settlement) :
  (∃ st a, reports (Store.RemoveItem c i cb r) = [Report (default Noop cb) st a] ∧
           (st = SUCCESS ↔ present c = true ∧ present i = true ∧ r = Fulfilled)) ∧
  (present c && present i = false →
   Store.RemoveItem c i cb r = [Report (default Noop cb) ERROR (Told InvalidParameters)]).
Proof.
  unfold Store.RemoveItem, present.
  destruct c as [c|], i as [i|]; simpl;
    try (split; [do 2 eexists; split; [reflexivity|]; split; [done|by intros (?&?&?)]
                |done]).
  destruct (String.eqb c ""), (String.eqb i ""); simpl;
    try (split; [do 2 eexists; split; [reflexivity|]; split; [done|by intros (?&?&?)]
                |done]).
  split; [|done].
  destruct r; do 2 eexists; (split; [reflexivity|]); split; try done.
  by intros (?&?&?).
Qed.

(** X14: [GetCollection] reads [db], which it does not declare.  When no
    such global exists it never lists a collection: a call with valid
    arguments throws a [ReferenceError] before anything is asked of the
    backend, and whatever the arguments nothing but an invalid-parameters
    report can come out. *)
Theorem GetCollection_needs_db
    (c : option string) (cb : option fn) (r : listing) :
  (present c = true → is_Some cb →
   Store.GetCollection false c cb r = ([], Some ReferenceError)) ∧
  (∀ e, e ∈ (Store.GetCollection false c cb r).1 →
        ∃ f, e = Report f ERROR (Told InvalidParameters)).
Proof.
  unfold Store.GetCollection, present. split.
  - intros Hc [f ->]. destruct c as [c|]; [|done].
    by apply negb_true_iff in Hc as ->.
  - intros e. destruct c as [c|], cb as [f|]; simpl;
      try destruct (String.eqb c ""); simpl;
      rewrite ?list_elem_of_singleton; try (by intros ?%elem_of_nil); eauto.
Qed.

Lemma GetCollection_needs_db_witness :
  Store.GetCollection false (Some "notes") (Some (Fn 0)) (Listed [edit_a])
  = ([], Some ReferenceError).
Proof.
  apply (GetCollection_needs_db (Some "notes") (Some (Fn 0)) (Listed [edit_a]));
    [reflexivity | eauto].
Defined.

Lemma RemoveItem_reports_once_witness :
  Store.RemoveItem None (Some "n1") (Some (Fn 0)) Fulfilled
  = [Report (Fn 0) ERROR (Told InvalidParameters)].
Proof.
  apply (RemoveItem_reports_once None (Some "n1") (Some (Fn 0)) Fulfilled).
  reflexivity.
Defined.

(** ** Parameter checks of the current files *)

(** X16: in [store.js] and [asyncstore.js] as they stand, an operation
    called with a callback but without one of its identifiers (missing or
    empty), or without data, calls the callback once with [ERROR] and the
    invalid-parameters message and stops there: no backend call, no change
    to the local store, no timer, no exception. *)
Theorem parameter_checks_stop
    (now : Z) (new_id : string) (c i : option string) (data : option obj)
    (overwrite useDelay : bool) (f : fn) (w : world) :
  (present c = false ∨ present i = false ∨ data = None →
   Store.SetItem now c i data overwrite (Some f) useDelay w
   = (emit (Callback f ERROR InvalidParameters) w, None) ∧
   AsyncStore.SetItem now c i data overwrite (Some f) useDelay w
   = (emit (Callback f ERROR InvalidParameters) w, None)) ∧
  (present c = false ∨ present i = false →
   Store.GetItem c i (Some f) w = (emit (Callback f ERROR InvalidParameters) w, None)) ∧
  (present c = false ∨ data = None →
   Store.AddItem now new_id c data (Some f) w
   = (emit (Callback f ERROR InvalidParameters) w, None) ∧
   AsyncStore.AddItem now new_id c data (Some f) w
   = (emit (Callback f ERROR InvalidParameters) w, None)).
Proof.
  unfold present. split; [|split].
  - unfold Store.SetItem, AsyncStore.SetItem.
    destruct c as [c|], i as [i|], data as [d|]; simpl; try (intros _; by split).
    intros [H|[H|H]]; [| |done]; apply negb_false_iff in H; rewrite H;
      rewrite ?orb_true_r; by split.
  - unfold Store.GetItem, present.
    destruct c as [c|], i as [i|]; simpl; try destruct (String.eqb c "");
      try destruct (String.eqb i ""); simpl; try (by intros _); by intros [?|?].
  - unfold Store.AddItem, AsyncStore.AddItem.
    destruct c as [c|], data as [d|]; simpl; try (intros _; by split).
    intros [H|H]; [|done]. apply negb_false_iff in H. rewrite H. by split.
Qed.

Lemma parameter_checks_stop_witness :
  Store.SetItem 9 (Some "notes") (Some "") (Some edit_a) false (Some (Fn 0)) true initial
  = (emit (Callback (Fn 0) ERROR InvalidParameters) initial, None) ∧
  Store.GetItem (Some "notes") (Some "") (Some (Fn 0)) initial
  = (emit (Callback (Fn 0) ERROR InvalidParameters) initial, None) ∧
  AsyncStore.AddItem 9 "g1" (Some "notes") None (Some (Fn 0)) initial
  = (emit (Callback (Fn 0) ERROR InvalidParameters) initial, None).
Proof.
  pose proof (parameter_checks_stop 9 "g1" (Some "notes") (Some "") (Some edit_a)
                false true (Fn 0) initial) as (Hset & Hget & _).
  pose proof (parameter_checks_stop 9 "g1" (Some "notes") (Some "") None
                false true (Fn 0) initial) as (_ & _ & Hadd).
  split; [apply Hset; right; left; reflexivity|].
  split; [apply Hget; right; reflexivity|].
  apply Hadd. right. reflexivity.
Defined.

(** ** The registry of handles, page reloads included *)

Lemma filter_map (P : value → Prop) `{!∀ v, Decision (P v)} (hs : list Z) :
  filter P (map VNum hs) = map VNum (filter (λ h, P (VNum h)) hs).
Proof.
  induction hs as [|h hs IH]; [done|]. simpl.
  destruct (decide (P (VNum h))) as [Hh|Hh].
  - rewrite !filter_cons_True by done. simpl. by rewrite IH.
  - by rewrite !filter_cons_False.
Qed.

Lemma filter_other_handles (old : Z) (hs : list Z) :
  filter (λ id, strict_eq id (VNum old) = false) (map VNum hs)
  = map VNum (filter (λ h, h ≠ old) hs).
Proof.
  rewrite filter_map. f_equal. apply list_filter_iff.
  intros h. simpl. apply Z.eqb_neq.
Qed.

Lemma json_handles (hs : list Z) : json (VArr (map VNum hs)) = VArr (map VNum hs).
Proof.
  rewrite json_VArr, map_map. f_equal.
Qed.

(** C5, amended: a buffered write onto a cached document arms a new timer
    and stores the registry as it was, less every occurrence of the handle
    it replaces (the one recorded under the key's timer entry), with the
    new handle added at the end: the other handles stay, in their order.
    The replaced timer is cancelled and the other timers stay armed.  A
    timer firing and its write completing leave the registry as it is. *)
Theorem C5_registry_on_replacement
    (c i : string) (x : edit) (w : world) (hs : list Z) (old : Z) :
  c ≠ "" → i ≠ "" →
  is_Some (localStorage w !! Store.documentKey c i) →
  localStorage w !! Store.timerKey c i = Some (VNum old) →
  localStorage w !! Store.timerIDsKey = Some (VArr (map VNum hs)) →
  localStorage (buffered c i x w) !! Store.timerIDsKey
  = Some (VArr (map VNum (filter (λ h, h ≠ old) hs ++ [next_timer w]))) ∧
  timers (buffered c i x w)
  = <[next_timer w := {| handler := closure_of c i x; delay := 3000 |}]>
      (delete old (timers w)) ∧
  ∀ h n r, localStorage (settle n r (Store.fire h (buffered c i x w)))
             !! Store.timerIDsKey
           = Some (VArr (map VNum (filter (λ h, h ≠ old) hs ++ [next_timer w]))).
Proof.
  intros Hc Hi [v Hdoc] Hold Hreg.
  assert (localStorage (buffered c i x w) !! Store.timerIDsKey
          = Some (VArr (map VNum (filter (λ h, h ≠ old) hs ++ [next_timer w]))) ∧
          timers (buffered c i x w)
          = <[next_timer w := {| handler := closure_of c i x; delay := 3000 |}]>
              (delete old (timers w))) as [Hids Htimers].
  { unfold buffered, Store.SetItem.
    apply String.eqb_neq in Hc as ->. apply String.eqb_neq in Hi as ->. simpl.
    assert (getItem (localStorage w) Store.timerIDsKey = VArr (map VNum hs)) as ->
      by (unfold getItem; by rewrite Hreg).
    assert (getItem (localStorage w) (Store.timerKey c i) = VNum old) as ->
      by (unfold getItem; by rewrite Hold).
    unfold noItem. rewrite bool_decide_eq_false_2 by congruence. simpl.
    set (w1 := if edit_overwrite x then _ else _).
    assert (timers w1 = timers w ∧ next_timer w1 = next_timer w) as [Ht1 Hn1]
      by (subst w1; by destruct (edit_overwrite x)).
    rewrite Ht1, Hn1, filter_other_handles, lookup_insert_eq.
    change [VNum (next_timer w)] with (map VNum [next_timer w]).
    by rewrite <- map_app, json_handles. }
  split; [done|]. split; [done|].
  intros h n r. by rewrite settle_localStorage, fire_localStorage.
Qed.

Lemma C5_registry_on_replacement_witness :
  localStorage (buffered "notes" "n1" second_edit two_documents) !! Store.timerIDsKey
  = Some (VArr (map VNum (filter (λ h, h ≠ 2) [2; 4] ++ [next_timer two_documents]))) ∧
  timers (buffered "notes" "n1" second_edit two_documents)
  = <[next_timer two_documents :=
        {| handler := closure_of "notes" "n1" second_edit; delay := 3000 |}]>
      (delete 2 (timers two_documents)) ∧
  ∀ h n r, localStorage (settle n r (Store.fire h
                                       (buffered "notes" "n1" second_edit two_documents)))
             !! Store.timerIDsKey
           = Some (VArr (map VNum (filter (λ h, h ≠ 2) [2; 4]
                                   ++ [next_timer two_documents]))).
Proof.
  apply (C5_registry_on_replacement "notes" "n1" second_edit two_documents [2; 4] 2).
  - discriminate.
  - discriminate.
  - vm_compute. eauto.
  - vm_compute. reflexivity.
  - vm_compute. reflexivity.
Defined.





